(** * 3d-arcade-online: the frame scheduler, the video-source adapter and the
    CRT fragment program, embedded and checked against the written spec.

    Source files embedded here:
    - [src/shaders/CRTShader.js] with its GLSL fragment program,
    - [src/emulator/EmulatorBridge.js] and [src/emulator/InputRouter.js],
    - [src/scene/SceneManager.js] and [src/scene/ScreenMesh.js],
    - [src/main.js] and the handlers of [src/ui/ROMLoader.js].

    Conventions.
    - GLSL [float] values are idealised as real numbers ([R]); the literal
      [3.14159265] of the shader is kept as the rational it denotes. The
      flicker stage is also given on binary32 floats, with the sine of
      the GPU as a parameter.
    - JavaScript object references are handles ([nat]) into a store of DOM
      canvas elements, so that identity ([===]) and in-place mutation of a
      shared canvas are both visible.
    - [performance.now()] readings are inputs of the events that take them,
      as rationals ([Q], milliseconds); the clock's arithmetic on them is
      exact, where JavaScript rounds each operation to a double.
    - The browser and EmulatorJS are the environment: animation frames,
      the creation and resizing of EmulatorJS's canvas and its call of
      [window.EJS_onGameStart] are events, in any order and number. A
      canvas reports the width the DOM keeps for it, not the number
      assigned. *)

From Stdlib Require Import Reals Psatz QArith ZArith List Bool.
From Stdlib Require Import Qround Qabs Qpower Qreals.
From stdpp Require Import base option gmap.
From stdpp Require Import strings.

(* ===================================================================== *)
(** * Single-precision floats *)
(* ===================================================================== *)

(** The arithmetic of a [highp float]: a real result is rounded to the
    nearest binary32 number. The numbers are kept as rationals. *)
Module Binary32.
Local Open Scope Q_scope.

Definition pow2 (k : Z) : Q := 2 ^ k.

(** [floor (log2 x)] for a positive [x]. *)
Definition ilog2 (x : Q) : Z :=
  let e := (Z.log2 (Qnum x) - Z.log2 (Zpos (Qden x)))%Z in
  if Qle_bool (pow2 e) x then e else (e - 1)%Z.

(** The nearest integer, ties to even. *)
Definition rne (y : Q) : Z :=
  let f := Qfloor y in
  match Qcompare (y - inject_Z f) (1 # 2) with
  | Lt => f
  | Gt => (f + 1)%Z
  | Eq => if Z.even f then f else (f + 1)%Z
  end.

(** The spacing of the floats around [x]: 24 significant bits, and the
    spacing of the subnormal numbers below [2^-126]. *)
Definition ulp (x : Q) : Q := pow2 (Z.max (ilog2 (Qabs x)) (-126) - 23).

(** Round to nearest, ties to even; results beyond the largest finite
    float are not modelled. *)
Definition round (x : Q) : Q := inject_Z (rne (x / ulp x)) * ulp x.

End Binary32.

(* ===================================================================== *)
(** * CRTShader.glsl: the fragment program *)
(* ===================================================================== *)

Module CRTShader.
Local Open Scope R_scope.

Record vec2 := V2 { vx : R; vy : R }.
Record vec3 := V3 { v3r : R; v3g : R; v3b : R }.
Record vec4 := V4 { cr : R; cg : R; cb : R; ca : R }.

(** A [sampler2D] read through [texture2D]. *)
Definition sampler2D := vec2 -> vec4.
Definition texture2D (tex : sampler2D) (uv : vec2) : vec4 := tex uv.

(** The uniforms block ([tDiffuse] is passed separately). *)
Record Uniforms := {
  uResolution : vec2;
  uTime : R;
  uScanlineIntensity : R;
  uBarrelStrength : R;
  uChromaticAberration : R;
  uVignetteStrength : R;
  uBrightness : R
}.

(** Defaults of [CRTShader.uniforms] in CRTShader.js. *)
Definition default_uniforms : Uniforms := {|
  uResolution := V2 0 0;
  uTime := 0;
  uScanlineIntensity := 0.15;
  uBarrelStrength := 0.15;
  uChromaticAberration := 0.003;
  uVignetteStrength := 0.4;
  uBrightness := 1.1
|}.

(** [crtPass.uniforms.uResolution.value.set(width, height)] (PostProcessor.js) *)
Definition set_uResolution (res : vec2) (u : Uniforms) : Uniforms := {|
  uResolution := res;
  uTime := uTime u;
  uScanlineIntensity := uScanlineIntensity u;
  uBarrelStrength := uBarrelStrength u;
  uChromaticAberration := uChromaticAberration u;
  uVignetteStrength := uVignetteStrength u;
  uBrightness := uBrightness u
|}.

(** A flat mid-grey source image. *)
Definition grey_texture : sampler2D := fun _ => V4 0.5 0.5 0.5 1.

(** ** GLSL built-ins *)

Definition dot2 (a b : vec2) : R := vx a * vx b + vy a * vy b.
Definition dot3 (a b : vec3) : R := v3r a * v3r b + v3g a * v3g b + v3b a * v3b b.

(** [mix(x, y, a) = x*(1-a) + y*a]. *)
Definition mix (x y a : R) : R := x * (1 - a) + y * a.

Definition Rltb (a b : R) : bool := if Rlt_dec a b then true else false.

(** [pow(x, y)]: the GLSL specification leaves the result undefined for
    [x < 0], and for [x = 0] with [y <= 0]; [pow(0, y) = 0] for [y > 0]. *)
Definition glsl_pow (x y : R) : option R :=
  if Rlt_dec 0 x then Some (Rpower x y)
  else if Rlt_dec x 0 then None
  else if Rlt_dec 0 y then Some 0
  else None.

(** ** The program *)

(** [vec2 barrelDistort(vec2 uv, float strength)] *)
Definition barrelDistort (uv : vec2) (strength : R) : vec2 :=
  let cc := V2 (vx uv - 0.5) (vy uv - 0.5) in
  let dist := dot2 cc cc in
  V2 (vx uv + vx cc * dist * strength) (vy uv + vy cc * dist * strength).

(** [vec4 sampleChromatic(sampler2D tex, vec2 uv, float aberration)] *)
Definition sampleChromatic (tex : sampler2D) (uv : vec2) (aberration : R) : vec4 :=
  let r := cr (texture2D tex (V2 (vx uv + aberration) (vy uv + 0))) in
  let g := cg (texture2D tex uv) in
  let b := cb (texture2D tex (V2 (vx uv - aberration) (vy uv - 0))) in
  V4 r g b 1.

(** The clip test of [main]:
    [uv.x < 0.0 || uv.x > 1.0 || uv.y < 0.0 || uv.y > 1.0]. *)
Definition clipped (uv : vec2) : bool :=
  Rltb (vx uv) 0 || Rltb 1 (vx uv) || Rltb (vy uv) 0 || Rltb 1 (vy uv).

(** The literal [3.14159265] of the scanline line. *)
Definition PI_lit : R := 3.14159265.

(** [sin(uv.y * uResolution.y * 3.14159265) * 0.5 + 0.5] *)
Definition scanline_raw (uvy resy : R) : R := sin (uvy * resy * PI_lit) * 0.5 + 0.5.

(** [scanline = pow(scanline, 0.5)] *)
Definition scanline (uvy resy : R) : option R := glsl_pow (scanline_raw uvy resy) 0.5.

(** [float flicker = 1.0 + sin(uTime * 60.0) * 0.003] *)
Definition flicker (time : R) : R := 1 + sin (time * 60) * 0.003.

(** The same line as the GPU evaluates it, on binary32 floats, from the
    value [s] its [sin] returned. The literal [0.003] is rounded, and so
    are the product and the sum; GLSL lets [a * b + c] be one fused
    operation, which leaves the product unrounded. *)
Definition flicker_of_sin (fused : bool) (s : Q) : Q :=
  let p := (s * Binary32.round (3 # 1000))%Q in
  Binary32.round (1 + (if fused then p else Binary32.round p))%Q.

(** [gsin] is the sine of the GPU; its argument is the rounded product
    [uTime * 60.0]. *)
Definition flicker_f32 (fused : bool) (gsin : Q -> Q) (uTime : Q) : Q :=
  flicker_of_sin fused (gsin (Binary32.round (uTime * 60)%Q)).

(** [vec2 vigUv = uv * (1.0 - uv.yx)] *)
Definition vigUv (uv : vec2) : vec2 := V2 (vx uv * (1 - vy uv)) (vy uv * (1 - vx uv)).

(** [vignette = vigUv.x * vigUv.y * 15.0; vignette = pow(vignette, uVignetteStrength)] *)
Definition vignette (uv : vec2) (strength : R) : option R :=
  glsl_pow (vx (vigUv uv) * vy (vigUv uv) * 15) strength.

Definition rgb (c : vec4) : vec3 := V3 (cr c) (cg c) (cb c).

(** [color.rgb *= k] *)
Definition scale_rgb (c : vec4) (k : R) : vec4 := V4 (cr c * k) (cg c * k) (cb c * k) (ca c).

(** [color.rgb += color.rgb * luma * 0.15] *)
Definition glow (c : vec4) : vec4 :=
  let luma := dot3 (rgb c) (V3 0.299 0.587 0.114) in
  V4 (cr c + cr c * luma * 0.15) (cg c + cg c * luma * 0.15) (cb c + cb c * luma * 0.15) (ca c).

Definition black : vec4 := V4 0 0 0 1.

(** [f] repeats itself after every shift by [T]. *)
Definition has_period (f : R -> option R) (T : R) : Prop := forall y, f (y + T) = f y.

(** [void main()]: the value written to [gl_FragColor]; [None] where a
    [pow] of the program is undefined. *)
Definition main (u : Uniforms) (tDiffuse : sampler2D) (vUv : vec2) : option vec4 :=
  let uv := barrelDistort vUv (uBarrelStrength u * 0.3) in
  if clipped uv then Some black
  else
    let color := sampleChromatic tDiffuse uv (uChromaticAberration u) in
    match scanline (vy uv) (vy (uResolution u)) with
    | None => None
    | Some s =>
        let color := scale_rgb color (mix 1 s (uScanlineIntensity u)) in
        let color := glow color in
        let color := scale_rgb color (uBrightness u) in
        let color := scale_rgb color (flicker (uTime u)) in
        match vignette uv (uVignetteStrength u) with
        | None => None
        | Some v => Some (scale_rgb color v)
        end
    end.

(** [uniforms.uBrightness.value = b] *)
Definition set_uBrightness (b : R) (u : Uniforms) : Uniforms := {|
  uResolution := uResolution u;
  uTime := uTime u;
  uScanlineIntensity := uScanlineIntensity u;
  uBarrelStrength := uBarrelStrength u;
  uChromaticAberration := uChromaticAberration u;
  uVignetteStrength := uVignetteStrength u;
  uBrightness := b
|}.

(** A coordinate on one of the four edges [x = 0], [x = 1], [y = 0], [y = 1]. *)
Definition on_border (uv : vec2) : Prop := vx uv = 0 \/ vx uv = 1 \/ vy uv = 0 \/ vy uv = 1.


End CRTShader.

(* ===================================================================== *)
(** * three.js: the two library classes the scene code drives *)
(* ===================================================================== *)

(** three.js is a dependency, not part of the repository; [Clock] and the
    [needsUpdate] setter of [Texture] are written down here as the library
    documents and implements them, since [SceneManager.start()] and [#tick]
    act through them. *)

Module THREE.
Local Open Scope Q_scope.

(** [THREE.Clock]; times read from [performance.now()] are passed in. *)
Record Clock := {
  autoStart : bool;
  startTime : Q;
  oldTime : Q;
  elapsedTime : Q;
  running : bool
}.

(** [new THREE.Clock()] ([autoStart] defaults to [true]). *)
Definition Clock_new : Clock :=
  {| autoStart := true; startTime := 0; oldTime := 0; elapsedTime := 0; running := false |}.

(** [Clock.start()]: sets [startTime] and [oldTime] to now, [elapsedTime]
    to 0 and [running] to true. *)
Definition Clock_start (now : Q) (c : Clock) : Clock :=
  {| autoStart := autoStart c; startTime := now; oldTime := now;
     elapsedTime := 0; running := true |}.

(** [Clock.getDelta()] *)
Definition getDelta (now : Q) (c : Clock) : Q * Clock :=
  if autoStart c && negb (running c) then (0, Clock_start now c)
  else if running c then
    let diff := (now - oldTime c) / 1000 in
    (diff, {| autoStart := autoStart c; startTime := startTime c; oldTime := now;
              elapsedTime := elapsedTime c + diff; running := running c |})
  else (0, c).

(** [Clock.getElapsedTime()] *)
Definition getElapsedTime (now : Q) (c : Clock) : Q * Clock :=
  let c' := snd (getDelta now c) in (elapsedTime c', c').

(** A [THREE.CanvasTexture]: the canvas it reads ([image], a reference) and
    its [version], which the setter [needsUpdate = true] increments. *)
Record Texture := { image : nat; version : nat }.

(** [new THREE.CanvasTexture(canvas)] (the constructor marks it dirty once). *)
Definition CanvasTexture (canvas : nat) : Texture := {| image := canvas; version := 1 |}.

(** [texture.needsUpdate = true] *)
Definition set_needsUpdate (t : Texture) : Texture :=
  {| image := image t; version := S (version t) |}.

(** [texture.image = canvas] *)
Definition set_image (canvas : nat) (t : Texture) : Texture :=
  {| image := canvas; version := version t |}.

End THREE.

(* ===================================================================== *)
(** * The browser, EmulatorBridge and SceneManager *)
(* ===================================================================== *)

(** A reference to an [HTMLCanvasElement]. *)
Abbreviation Handle := nat (only parsing).

Record Canvas := { width : Z; height : Z }.

(** A canvas element as [document.createElement('canvas')] returns it. *)
Definition html_default_canvas : Canvas := {| width := 300; height := 150 |}.

Inductive Promise := Pending | Resolved | Rejected.

(** A connected [MutationObserver] of [EJS_onGameStart]: the canvas it
    watches and the [loadROM] call whose [resolve] its closure holds. *)
Record Observer := { oid : nat; target : Handle; load : nat }.

Inductive LogMsg :=
| LogLoadROM
| LogGameStartFired
| WarnNoCanvas
| LogCanvasReady (w h : Z)
| LogWaitingForResize (w h : Z)
| LogTextureSwapped (w h : Z).

(** Everything outside the two classes: the DOM canvases, the globals
    EmulatorJS is driven through, the promises handed out by [loadROM],
    the animation-frame queue and the console. *)
Record Window := {
  canvases : gmap nat Canvas;
  nextHandle : Handle;
  EJS_emulator_canvas : option Handle;   (* window.EJS_emulator?.canvas *)
  EJS_onGameStart : option nat;          (* the installed callback, by load *)
  observers : list Observer;
  nextObserver : nat;
  promises : list Promise;               (* indexed by load *)
  rafQueue : list nat;                   (* pending requestAnimationFrame ids *)
  nextRaf : nat;
  console : list LogMsg
}.

(** The private fields of [EmulatorBridge]. [#placeholderCanvas] is
    assigned by the constructor before the object is handed out, so a
    constructed bridge always holds a reference there. *)
Record EmulatorBridge := {
  placeholderCanvas : Handle;
  ejsCanvas : option Handle;
  isReady : bool
}.

(** The fields of [SceneManager] the loop touches, the [uTime] uniform of
    the CRT pass, and counters of the calls into collaborators
    ([inputRouter.poll()], [controls.update()], [composer.render()]). *)
Record SceneManager := {
  clock : THREE.Clock;
  screenMesh : option THREE.Texture;
  rafId : option nat;
  uTime : Q;
  polls : nat;
  controlUpdates : nat;
  renders : nat
}.

Record World := { win : Window; bridge : EmulatorBridge; scene : SceneManager }.

(** ** Field updates *)

Definition with_win (f : Window -> Window) (w : World) : World :=
  {| win := f (win w); bridge := bridge w; scene := scene w |}.
Definition with_bridge (f : EmulatorBridge -> EmulatorBridge) (w : World) : World :=
  {| win := win w; bridge := f (bridge w); scene := scene w |}.
Definition with_scene (f : SceneManager -> SceneManager) (w : World) : World :=
  {| win := win w; bridge := bridge w; scene := f (scene w) |}.

Definition set_canvases (m : gmap nat Canvas) (w : Window) : Window :=
  {| canvases := m; nextHandle := nextHandle w;
     EJS_emulator_canvas := EJS_emulator_canvas w; EJS_onGameStart := EJS_onGameStart w;
     observers := observers w; nextObserver := nextObserver w; promises := promises w;
     rafQueue := rafQueue w; nextRaf := nextRaf w; console := console w |}.
Definition set_nextHandle (h : Handle) (w : Window) : Window :=
  {| canvases := canvases w; nextHandle := h;
     EJS_emulator_canvas := EJS_emulator_canvas w; EJS_onGameStart := EJS_onGameStart w;
     observers := observers w; nextObserver := nextObserver w; promises := promises w;
     rafQueue := rafQueue w; nextRaf := nextRaf w; console := console w |}.
Definition set_EJS_emulator_canvas (c : option Handle) (w : Window) : Window :=
  {| canvases := canvases w; nextHandle := nextHandle w;
     EJS_emulator_canvas := c; EJS_onGameStart := EJS_onGameStart w;
     observers := observers w; nextObserver := nextObserver w; promises := promises w;
     rafQueue := rafQueue w; nextRaf := nextRaf w; console := console w |}.
Definition set_EJS_onGameStart (cb : option nat) (w : Window) : Window :=
  {| canvases := canvases w; nextHandle := nextHandle w;
     EJS_emulator_canvas := EJS_emulator_canvas w; EJS_onGameStart := cb;
     observers := observers w; nextObserver := nextObserver w; promises := promises w;
     rafQueue := rafQueue w; nextRaf := nextRaf w; console := console w |}.
Definition set_observers (os : list Observer) (w : Window) : Window :=
  {| canvases := canvases w; nextHandle := nextHandle w;
     EJS_emulator_canvas := EJS_emulator_canvas w; EJS_onGameStart := EJS_onGameStart w;
     observers := os; nextObserver := nextObserver w; promises := promises w;
     rafQueue := rafQueue w; nextRaf := nextRaf w; console := console w |}.
Definition set_nextObserver (n : nat) (w : Window) : Window :=
  {| canvases := canvases w; nextHandle := nextHandle w;
     EJS_emulator_canvas := EJS_emulator_canvas w; EJS_onGameStart := EJS_onGameStart w;
     observers := observers w; nextObserver := n; promises := promises w;
     rafQueue := rafQueue w; nextRaf := nextRaf w; console := console w |}.
Definition set_promises (ps : list Promise) (w : Window) : Window :=
  {| canvases := canvases w; nextHandle := nextHandle w;
     EJS_emulator_canvas := EJS_emulator_canvas w; EJS_onGameStart := EJS_onGameStart w;
     observers := observers w; nextObserver := nextObserver w; promises := ps;
     rafQueue := rafQueue w; nextRaf := nextRaf w; console := console w |}.
Definition set_rafQueue (q : list nat) (w : Window) : Window :=
  {| canvases := canvases w; nextHandle := nextHandle w;
     EJS_emulator_canvas := EJS_emulator_canvas w; EJS_onGameStart := EJS_onGameStart w;
     observers := observers w; nextObserver := nextObserver w; promises := promises w;
     rafQueue := q; nextRaf := nextRaf w; console := console w |}.
Definition set_nextRaf (n : nat) (w : Window) : Window :=
  {| canvases := canvases w; nextHandle := nextHandle w;
     EJS_emulator_canvas := EJS_emulator_canvas w; EJS_onGameStart := EJS_onGameStart w;
     observers := observers w; nextObserver := nextObserver w; promises := promises w;
     rafQueue := rafQueue w; nextRaf := n; console := console w |}.
Definition set_console (l : list LogMsg) (w : Window) : Window :=
  {| canvases := canvases w; nextHandle := nextHandle w;
     EJS_emulator_canvas := EJS_emulator_canvas w; EJS_onGameStart := EJS_onGameStart w;
     observers := observers w; nextObserver := nextObserver w; promises := promises w;
     rafQueue := rafQueue w; nextRaf := nextRaf w; console := l |}.

Definition set_ejsCanvas (c : option Handle) (b : EmulatorBridge) : EmulatorBridge :=
  {| placeholderCanvas := placeholderCanvas b; ejsCanvas := c; isReady := isReady b |}.
Definition set_isReady (r : bool) (b : EmulatorBridge) : EmulatorBridge :=
  {| placeholderCanvas := placeholderCanvas b; ejsCanvas := ejsCanvas b; isReady := r |}.

Definition set_clock (c : THREE.Clock) (s : SceneManager) : SceneManager :=
  {| clock := c; screenMesh := screenMesh s; rafId := rafId s; uTime := uTime s;
     polls := polls s; controlUpdates := controlUpdates s; renders := renders s |}.
Definition set_screenMesh (m : option THREE.Texture) (s : SceneManager) : SceneManager :=
  {| clock := clock s; screenMesh := m; rafId := rafId s; uTime := uTime s;
     polls := polls s; controlUpdates := controlUpdates s; renders := renders s |}.
Definition set_rafId (r : option nat) (s : SceneManager) : SceneManager :=
  {| clock := clock s; screenMesh := screenMesh s; rafId := r; uTime := uTime s;
     polls := polls s; controlUpdates := controlUpdates s; renders := renders s |}.
Definition set_uTime (t : Q) (s : SceneManager) : SceneManager :=
  {| clock := clock s; screenMesh := screenMesh s; rafId := rafId s; uTime := t;
     polls := polls s; controlUpdates := controlUpdates s; renders := renders s |}.
Definition count_poll (s : SceneManager) : SceneManager :=
  {| clock := clock s; screenMesh := screenMesh s; rafId := rafId s; uTime := uTime s;
     polls := S (polls s); controlUpdates := controlUpdates s; renders := renders s |}.
Definition count_controls_and_render (s : SceneManager) : SceneManager :=
  {| clock := clock s; screenMesh := screenMesh s; rafId := rafId s; uTime := uTime s;
     polls := polls s; controlUpdates := S (controlUpdates s); renders := S (renders s) |}.

(** ** Browser primitives *)

(** [console.log] / [console.warn] *)
Definition log (m : LogMsg) (w : World) : World :=
  with_win (fun b => set_console (console b ++ [m]) b) w.

(** The element behind a reference. *)
Definition canvas_of (w : World) (h : Handle) : Canvas :=
  default html_default_canvas (canvases (win w) !! h).

(** [document.createElement('canvas')]: a fresh element of the default size. *)
Definition createCanvas (b : Window) : Handle * Window :=
  let h := nextHandle b in
  (h, set_nextHandle (S h) (set_canvases (<[h := html_default_canvas]> (canvases b)) b)).

(** [requestAnimationFrame(cb)]: queues the callback, returns its id. *)
Definition requestAnimationFrame (b : Window) : nat * Window :=
  let id := nextRaf b in
  (id, set_nextRaf (S id) (set_rafQueue (rafQueue b ++ [id]) b)).

(** [cancelAnimationFrame(id)] *)
Definition cancelAnimationFrame (id : nat) (b : Window) : Window :=
  set_rafQueue (filter (fun i => i <> id) (rafQueue b)) b.

(** Settling a promise: only a pending one changes. *)
Definition settle (p : Promise) (n : nat) (ps : list Promise) : list Promise :=
  match ps !! n with
  | Some Pending => <[n := p]> ps
  | _ => ps
  end.

Definition resolve (n : nat) (w : World) : World :=
  with_win (fun b => set_promises (settle Resolved n (promises b)) b) w.
Definition reject (n : nat) (w : World) : World :=
  with_win (fun b => set_promises (settle Rejected n (promises b)) b) w.

(** ** EmulatorBridge.js *)

Definition empty_window : Window :=
  {| canvases := ∅; nextHandle := 0%nat; EJS_emulator_canvas := None;
     EJS_onGameStart := None; observers := []; nextObserver := 0%nat; promises := [];
     rafQueue := []; nextRaf := 1%nat; console := [] |}.

(** The constructor body after the container check: the placeholder canvas
    is created and sized 384 x 224. *)
Definition construct_bridge (b : Window) : EmulatorBridge * Window :=
  let '(h, b1) := createCanvas b in
  ({| placeholderCanvas := h; ejsCanvas := None; isReady := false |},
   set_canvases (<[h := {| width := 384; height := 224 |}]> (canvases b1)) b1).

(** [new EmulatorBridge(containerId)]: throws when the container is absent. *)
Definition EmulatorBridge_new (container_found : bool) (b : Window)
  : option (EmulatorBridge * Window) :=
  if container_found then Some (construct_bridge b) else None.

(** [get outputCanvas()]: [this.#ejsCanvas ?? this.#placeholderCanvas] *)
Definition outputCanvas (b : EmulatorBridge) : Handle :=
  match ejsCanvas b with
  | Some c => c
  | None => placeholderCanvas b
  end.

(** [markReady] of [EJS_onGameStart], closed over the canvas [c] and the
    [resolve] of load [n]. *)
Definition markReady (c : Handle) (n : nat) (w : World) : World :=
  let w := with_bridge (set_ejsCanvas (Some c)) w in
  let w := log (LogCanvasReady (width (canvas_of w c)) (height (canvas_of w c))) w in
  let w := with_bridge (set_isReady true) w in
  resolve n w.

(** [new MutationObserver(...)] + [observer.observe(ejsCanvas, ...)] *)
Definition observe (c : Handle) (n : nat) (w : World) : World :=
  with_win (fun b =>
    set_nextObserver (S (nextObserver b))
      (set_observers (observers b ++ [{| oid := nextObserver b; target := c; load := n |}]) b)) w.

(** [observer.disconnect()] *)
Definition disconnect (o : Observer) (w : World) : World :=
  with_win (fun b => set_observers (filter (fun o' => oid o' <> oid o) (observers b)) b) w.

(** The observer callback: [if (ejsCanvas.width > 300) { observer.disconnect(); markReady() }] *)
Definition observer_callback (o : Observer) (w : World) : World :=
  if (300 <? width (canvas_of w (target o)))%Z
  then markReady (target o) (load o) (disconnect o w)
  else w.

(** [window.EJS_onGameStart] as installed by load [n]. *)
Definition onGameStart (n : nat) (w : World) : World :=
  let w := log LogGameStartFired w in
  match EJS_emulator_canvas (win w) with
  | None =>
      let w := log WarnNoCanvas w in
      let w := with_bridge (set_isReady true) w in
      resolve n w
  | Some c =>
      if (300 <? width (canvas_of w c))%Z then markReady c n w
      else
        let w := log (LogWaitingForResize (width (canvas_of w c)) (height (canvas_of w c))) w in
        observe c n w
  end.

(** [loadROM(file, systemType, parentFile)]: resets the two fields, creates
    the promise and installs the callbacks; the ROM and core globals are
    not tracked. The promise returned is the last of [promises]. *)
Definition loadROM (w : World) : World :=
  let w := with_bridge (set_isReady false) w in
  let w := with_bridge (set_ejsCanvas None) w in
  let w := log LogLoadROM w in
  let n := length (promises (win w)) in
  with_win (fun b => set_EJS_onGameStart (Some n) (set_promises (promises b ++ [Pending]) b)) w.

(** ** ScreenMesh.js and SceneManager.js *)

(** [new SceneManager(container, emulatorBridge)] *)
Definition SceneManager_new : SceneManager :=
  {| clock := THREE.Clock_new; screenMesh := None; rafId := None; uTime := 0%Q;
     polls := 0%nat; controlUpdates := 0%nat; renders := 0%nat |}.

(** [init()] once the cabinet has loaded:
    [new ScreenMesh(screenNode, this.#emulatorBridge.outputCanvas)]. *)
Definition init (w : World) : World :=
  with_scene (set_screenMesh (Some (THREE.CanvasTexture (outputCanvas (bridge w))))) w.

(** Step 2 of [#tick]: stream the emulator frame. *)
Definition stream_frame (w : World) : World :=
  match isReady (bridge w), screenMesh (scene w) with
  | true, Some tex =>
      let ejsCanvas := outputCanvas (bridge w) in
      if decide (THREE.image tex = ejsCanvas)
      then with_scene (set_screenMesh (Some (THREE.set_needsUpdate tex))) w
      else
        let w := log (LogTextureSwapped (width (canvas_of w ejsCanvas))
                                        (height (canvas_of w ejsCanvas))) w in
        with_scene (set_screenMesh
          (Some (THREE.set_needsUpdate (THREE.set_image ejsCanvas tex)))) w
  | _, _ => w
  end.

(** [#tick], with [now] the reading [getElapsedTime] takes. *)
Definition tick (now : Q) (w : World) : World :=
  let '(id, b) := requestAnimationFrame (win w) in
  let w := with_scene (set_rafId (Some id)) (with_win (fun _ => b) w) in
  let w := with_scene count_poll w in
  let w := stream_frame w in
  let '(elapsed, c) := THREE.getElapsedTime now (clock (scene w)) in
  let w := with_scene (fun s => set_uTime elapsed (set_clock c s)) w in
  with_scene count_controls_and_render w.

(** [start()]; [t0] is the reading of [clock.start()], [t1] that of the
    tick it runs. *)
Definition start (t0 t1 : Q) (w : World) : World :=
  match rafId (scene w) with
  | Some _ => w
  | None =>
      let w := with_scene (fun s => set_clock (THREE.Clock_start t0 (clock s)) s) w in
      tick t1 w
  end.

(** [stop()] *)
Definition stop (w : World) : World :=
  match rafId (scene w) with
  | Some id => with_scene (set_rafId None) (with_win (cancelAnimationFrame id) w)
  | None => w
  end.

(** ** The environment *)

(** An animation frame: the browser runs the callbacks queued so far. *)
Definition frame (now : Q) (w : World) : World :=
  let cbs := rafQueue (win w) in
  fold_left (fun w _ => tick now w) cbs (with_win (set_rafQueue []) w).

(** EmulatorJS creates its canvas and publishes it as [EJS_emulator.canvas]. *)
Definition emuCreateCanvas (w : World) : World :=
  let '(h, b) := createCanvas (win w) in
  with_win (fun _ => set_EJS_emulator_canvas (Some h) b) w.

(** The observers of [h] are notified, in the order they were connected. *)
Definition notify (h : Handle) (w : World) : World :=
  fold_left (fun w o => if decide (target o = h) then observer_callback o w else w)
            (observers (win w)) w.

(** What [canvas.width] and [canvas.height] read back after a number is
    assigned: the attributes are [unsigned long]s limited to non-negative
    numbers, so the number is taken modulo 2^32 and, above 2147483647,
    replaced by the attribute's default. *)
Definition canvas_dimension (default_dimension z : Z) : Z :=
  let u := (z mod 4294967296)%Z in
  if (u <=? 2147483647)%Z then u else default_dimension.

(** EmulatorJS assigns [cw] and [ch] to the [width] and [height] of one of
    its canvases. The placeholder is private to the bridge and never
    resized. *)
Definition resizeCanvas (h : Handle) (cw ch : Z) (w : World) : World :=
  if decide (h = placeholderCanvas (bridge w)) then w
  else
    match canvases (win w) !! h with
    | None => w
    | Some _ =>
        notify h (with_win (fun b =>
          set_canvases (<[h := {| width := canvas_dimension 300 cw;
                                  height := canvas_dimension 150 ch |}]> (canvases b)) b) w)
    end.

(** EmulatorJS calls [window.EJS_onGameStart], if one is installed. *)
Definition gameStart (w : World) : World :=
  match EJS_onGameStart (win w) with
  | Some n => onGameStart n w
  | None => w
  end.

(** [script.onerror] of the loader script of load [n]. *)
Definition scriptError (n : nat) (w : World) : World := reject n w.

Inductive Event :=
| EvInit
| EvStart (t0 t1 : Q)
| EvStop
| EvFrame (now : Q)
| EvLoadROM
| EvScriptError (n : nat)
| EvEmuCanvas
| EvResize (h : Handle) (cw ch : Z)
| EvGameStart.

Definition step (w : World) (e : Event) : World :=
  match e with
  | EvInit => init w
  | EvStart t0 t1 => start t0 t1 w
  | EvStop => stop w
  | EvFrame now => frame now w
  | EvLoadROM => loadROM w
  | EvScriptError n => scriptError n w
  | EvEmuCanvas => emuCreateCanvas w
  | EvResize h cw ch => resizeCanvas h cw ch w
  | EvGameStart => gameStart w
  end.

Definition run (evs : list Event) (w : World) : World := fold_left step evs w.

(** [main()] up to the scene manager: the world the events act on. *)
Definition boot : World :=
  let '(b, wn) := construct_bridge empty_window in
  {| win := wn; bridge := b; scene := SceneManager_new |}.

Definition main_boot (container_found : bool) : option World :=
  match EmulatorBridge_new container_found empty_window with
  | Some (b, wn) => Some {| win := wn; bridge := b; scene := SceneManager_new |}
  | None => None
  end.

Definition Reachable (w : World) : Prop := exists evs, w = run evs boot.

(** Number of texture rebinds recorded on the console. *)
Definition is_swap (m : LogMsg) : bool :=
  match m with LogTextureSwapped _ _ => true | _ => false end.
Definition rebinds (w : World) : nat := length (filter (fun m => is_swap m = true) (console (win w))).


(** ** Observations the statements are written with *)

(** The [version] of the screen texture, when there is one. *)
Definition texture_version (w : World) : option nat := THREE.version <$> screenMesh (scene w).

(** The texture was marked dirty between two worlds: its version went up. *)
Definition marks_dirty (before after : World) : bool :=
  match texture_version before, texture_version after with
  | Some v, Some v' => (v <? v')%nat
  | _, _ => false
  end.

Definition has_texture (w : World) : bool :=
  match screenMesh (scene w) with Some _ => true | None => false end.

(** The canvas the screen texture currently reads. *)
Definition bound_image (w : World) : option Handle := THREE.image <$> screenMesh (scene w).

Definition is_start (e : Event) : bool :=
  match e with EvStart _ _ => true | _ => false end.

(** The events of the scheduler's own life cycle. *)
Definition is_sched (e : Event) : bool :=
  match e with EvStart _ _ | EvStop | EvFrame _ => true | _ => false end.

Definition is_load (e : Event) : bool :=
  match e with EvLoadROM => true | _ => false end.

(** Events other than a new [loadROM] and EmulatorJS replacing its canvas. *)
Definition keeps_source (e : Event) : bool :=
  match e with EvLoadROM | EvEmuCanvas => false | _ => true end.

(** The bridge serves [h], EmulatorJS still presents [h], and whatever
    observer is left watches [h]. *)
Definition settled (h : Handle) (w : World) : Prop :=
  ejsCanvas (bridge w) = Some h /\
  EJS_emulator_canvas (win w) = Some h /\
  Forall (fun o => target o = h) (observers (win w)).

(** ** Invariants *)

(** The scheduler: the pending animation frame is the one [#rafId] names,
    the uniform holds the clock's elapsed time, and a scheduler that is
    running has a running clock. *)
Definition sched_inv (w : World) : Prop :=
  rafQueue (win w) = match rafId (scene w) with Some id => [id] | None => [] end /\
  uTime (scene w) = THREE.elapsedTime (clock (scene w)) /\
  (rafId (scene w) <> None -> THREE.running (clock (scene w)) = true).

Definition idle (w : World) : Prop := rafId (scene w) = None /\ rafQueue (win w) = [].

(** What the bridge and EmulatorJS see of a world. *)
Definition bview (w : World) :=
  (bridge w, canvases (win w), nextHandle (win w), EJS_emulator_canvas (win w),
   EJS_onGameStart (win w), observers (win w), nextObserver (win w), promises (win w)).

(** The DOM as far as the bridge invariant reads it. *)
Definition dview (w : World) :=
  (placeholderCanvas (bridge w), canvases (win w), nextHandle (win w),
   EJS_emulator_canvas (win w)).

(** A world in which a tick has nothing to rebind. *)
Definition quiet (w : World) : Prop :=
  isReady (bridge w) = false \/ bound_image w = Some (outputCanvas (bridge w)).

(** The parts of a world a quiet tick leaves alone. *)
Definition same_source (w0 w : World) : Prop :=
  bview w = bview w0 /\ bound_image w = bound_image w0 /\ console (win w) = console (win w0).

(** A canvas of EmulatorJS: an element of the DOM other than the placeholder. *)
Definition real_canvas (w : World) (h : Handle) : Prop :=
  h <> placeholderCanvas (bridge w) /\ is_Some (canvases (win w) !! h).

(** The bridge: the placeholder is a 384 x 224 element, and every canvas
    EmulatorJS presents, every canvas watched and the canvas served are
    canvases of EmulatorJS. *)
Definition bridge_inv (w : World) : Prop :=
  canvases (win w) !! placeholderCanvas (bridge w) = Some {| width := 384; height := 224 |} /\
  (placeholderCanvas (bridge w) < nextHandle (win w))%nat /\
  (forall c, EJS_emulator_canvas (win w) = Some c -> real_canvas w c) /\
  Forall (fun o => real_canvas w (target o)) (observers (win w)) /\
  (forall h, ejsCanvas (bridge w) = Some h -> real_canvas w h).


Definition is_game_start (e : Event) : bool :=
  match e with EvGameStart => true | _ => false end.

(** The events that can change which surface the bridge serves. *)
Definition rebinds_surface (e : Event) : bool :=
  match e with EvLoadROM | EvResize _ _ _ | EvGameStart => true | _ => false end.

(** The bridge is ready and the texture still reads another canvas than
    the one served: the next tick has a rebind to do. *)
Definition stale (w : World) : Prop :=
  isReady (bridge w) = true /\
  exists h, bound_image w = Some h /\ h <> outputCanvas (bridge w).

(** Since [w0] the scheduler has not ticked, and the texture is as it was. *)
Definition before_tick (w0 w : World) : Prop :=
  renders (scene w) = renders (scene w0) /\
  bound_image w = bound_image w0 /\ rebinds w = rebinds w0.

(** Since [w0] the scheduler has ticked; the texture reads the canvas
    served, and one more rebind is on record. *)
Definition after_tick (w0 w : World) : Prop :=
  (renders (scene w0) < renders (scene w))%nat /\
  bound_image w = Some (outputCanvas (bridge w0)) /\ rebinds w = S (rebinds w0).

Definition since (w0 w : World) : Prop :=
  bridge w = bridge w0 /\ (before_tick w0 w \/ after_tick w0 w).

(** ** More invariants of the scheduler and of the bridge *)

(** Every tick polls the input, updates the controls and renders once. *)
Definition counts_agree (s : SceneManager) : Prop :=
  polls s = renders s /\ controlUpdates s = renders s.

(** A bound real surface means a ready bridge. *)
Definition ready_inv (w : World) : Prop :=
  ejsCanvas (bridge w) <> None -> isReady (bridge w) = true.

(** The canvas the texture reads is an element of the DOM. *)
Definition image_exists (w : World) : Prop :=
  forall h, bound_image w = Some h -> is_Some (canvases (win w) !! h).

(* ===================================================================== *)
(** * EmulatorBridge.js: the rest of [loadROM] *)
(* ===================================================================== *)

Module ContextPatch.
Local Open Scope string_scope.

(** A value of a WebGL context attribute. *)
Inductive JSValue := JSBool (b : bool) | JSString (s : string) | JSNumber (z : Z).

(** [type === 'webgl' || type === 'webgl2' || type === 'experimental-webgl'] *)
Definition is_webgl (type : string) : bool :=
  String.eqb type "webgl" || String.eqb type "webgl2" || String.eqb type "experimental-webgl".

(** The [getContext] installed by [EJS_ready]: the arguments it hands to the
    original [getContext]. [attrs] is [None] for an omitted argument, which
    the default parameter turns into an empty object. *)
Definition getContext_args (type : string) (attrs : option (gmap string JSValue))
  : string * gmap string JSValue :=
  let attrs := default ∅ attrs in
  if is_webgl type
  then (type, <["preserveDrawingBuffer" := JSBool true]> attrs)
  else (type, attrs).

End ContextPatch.

Module GameName.

(** A file name as its UTF-16 code units; [46] is the full stop. *)
Definition DOT : nat := 46.

Fixpoint has_dot (s : list nat) : bool :=
  match s with
  | [] => false
  | c :: r => (c =? DOT) || has_dot r
  end.

(** The whole of [s] matches [\.[^.]+$]. *)
Definition ext_here (s : list nat) : bool :=
  match s with
  | c :: r => (c =? DOT) && negb (bool_decide (r = [])) && negb (has_dot r)
  | [] => false
  end.

(** [name.replace(/\.[^.]+$/, '')]: the leftmost match is cut away. *)
Fixpoint gameName (s : list nat) : list nat :=
  if ext_here s then []
  else match s with
       | [] => []
       | c :: r => c :: gameName r
       end.

End GameName.

(* ===================================================================== *)
(** * InputRouter.js *)
(* ===================================================================== *)

Module InputRouter.
Local Open Scope string_scope.

Inductive Button := Up | Down | Left | Right | LP | MP | HP | LK | MK | HK | Start | Coin.

(** The object literal [KEY_MAP]: its own properties. *)
Definition KEY_MAP : gmap string Button :=
  list_to_map
    [("ArrowUp", Up); ("ArrowDown", Down); ("ArrowLeft", Left); ("ArrowRight", Right);
     ("z", LP); ("Z", LP); ("x", MP); ("X", MP); ("c", HP); ("C", HP);
     ("a", LK); ("A", LK); ("s", MK); ("S", MK); ("d", HK); ("D", HK);
     ("Enter", Start); ("Shift", Coin)].

(** [new Set(Object.keys(KEY_MAP))] *)
Definition CAPTURED_KEYS : gset string := dom KEY_MAP.

(** The property names every object literal inherits from [Object.prototype];
    [KEY_MAP[key]] finds a function or an object there, never a button. *)
Definition inherited_names : list string :=
  ["constructor"; "hasOwnProperty"; "isPrototypeOf"; "propertyIsEnumerable";
   "toLocaleString"; "toString"; "valueOf"; "__proto__";
   "__defineGetter__"; "__defineSetter__"; "__lookupGetter__"; "__lookupSetter__"].

(** What [KEY_MAP[key]] evaluates to. *)
Inductive Looked := Own (b : Button) | Inherited | Undefined.

Definition KEY_MAP_get (key : string) : Looked :=
  match KEY_MAP !! key with
  | Some b => Own b
  | None => if bool_decide (key ∈ inherited_names) then Inherited else Undefined
  end.

(** The fields of the router. *)
Record t := { heldKeys : gset string; emulatorFocused : bool }.

Definition create : t := {| heldKeys := ∅; emulatorFocused := false |}.

(** What a handler did besides updating the router: whether it called
    [e.preventDefault()] and what it wrote with [console.debug]. *)
Record Outcome := { router : t; prevented : bool; debug : option Looked }.

(** [#onKeyDown], with [ready] the bridge's [isReady]. *)
Definition onKeyDown (key : string) (ready : bool) (r : t) : Outcome :=
  if bool_decide (key ∈ heldKeys r) then {| router := r; prevented := false; debug := None |}
  else if bool_decide (key ∈ CAPTURED_KEYS) then
    {| router := {| heldKeys := heldKeys r ∪ {[key]}; emulatorFocused := emulatorFocused r |};
       prevented := true;
       debug := if ready then Some (KEY_MAP_get key) else None |}
  else {| router := r; prevented := false; debug := None |}.

(** [#onKeyUp] *)
Definition onKeyUp (key : string) (ready : bool) (r : t) : Outcome :=
  {| router := {| heldKeys := heldKeys r ∖ {[key]}; emulatorFocused := emulatorFocused r |};
     prevented := false;
     debug := match KEY_MAP_get key with
              | Undefined => None
              | b => if ready then Some b else None
              end |}.

(** The click handler on the Three.js canvas. *)
Definition onCanvasClick (r : t) : t :=
  {| heldKeys := heldKeys r; emulatorFocused := false |}.

Inductive KeyEvent := KeyDown (key : string) | KeyUp (key : string) | CanvasClick.

(** One event reaching the router, with the bridge's [isReady] at that
    moment. *)
Definition handle (r : t) (e : bool * KeyEvent) : t :=
  match snd e with
  | KeyDown k => router (onKeyDown k (fst e) r)
  | KeyUp k => router (onKeyUp k (fst e) r)
  | CanvasClick => onCanvasClick r
  end.

End InputRouter.

(* ===================================================================== *)
(** * main.js and ROMLoader.js: the page *)
(* ===================================================================== *)

(** What the spinner of the overlay says. *)
Inductive SpinnerMessage := Initializing | ErrorLoadingROM.

(** main.js and ROMLoader.js: the world, the state of the ROM panel and of
    the overlay, and the [loadROM] promise the click handler awaits. *)
Record App := {
  world : World;
  panelShown : bool;        (* panel.style.display is not 'none' *)
  fileSelected : bool;      (* fileInput.files[0] exists *)
  loadBtnEnabled : bool;    (* not loadBtn.disabled *)
  spinner : option SpinnerMessage;
  overlayHidden : bool;     (* overlay.hide() was called *)
  awaiting : option nat
}.

(** [main()] once [sceneManager.init()] has completed and the overlay and
    the ROM loader are built. *)
Definition app_boot : App :=
  {| world := init boot; panelShown := true; fileSelected := false;
     loadBtnEnabled := false; spinner := None; overlayHidden := false; awaiting := None |}.

(** The ['change'] handler of the ROM file input. *)
Definition onFileChange (has_file : bool) (a : App) : App :=
  {| world := world a; panelShown := panelShown a; fileSelected := has_file;
     loadBtnEnabled := if has_file then true else loadBtnEnabled a;
     spinner := spinner a; overlayHidden := overlayHidden a; awaiting := awaiting a |}.

(** The ['click'] handler of the load button, up to its [await]. *)
Definition onLoadClick (a : App) : App :=
  if fileSelected a then
    {| world := loadROM (world a); panelShown := false; fileSelected := fileSelected a;
       loadBtnEnabled := loadBtnEnabled a; spinner := Some Initializing;
       overlayHidden := overlayHidden a;
       awaiting := Some (length (promises (win (world a)))) |}
  else a.

(** The rest of the click handler, run when the awaited promise settles:
    [overlay.hide(); onReady()] with [onReady = () => sceneManager.start()],
    or the [catch] branch. *)
Definition afterAwait (t0 t1 : Q) (a : App) : App :=
  match awaiting a with
  | None => a
  | Some n =>
      match promises (win (world a)) !! n with
      | Some Resolved =>
          {| world := start t0 t1 (world a); panelShown := panelShown a;
             fileSelected := fileSelected a; loadBtnEnabled := loadBtnEnabled a;
             spinner := spinner a; overlayHidden := true; awaiting := None |}
      | Some Rejected =>
          {| world := world a; panelShown := panelShown a;
             fileSelected := fileSelected a; loadBtnEnabled := loadBtnEnabled a;
             spinner := Some ErrorLoadingROM; overlayHidden := overlayHidden a;
             awaiting := None |}
      | _ => a
      end
  end.

(** The events the browser and EmulatorJS produce on their own. *)
Definition is_env (e : Event) : bool :=
  match e with
  | EvFrame _ | EvScriptError _ | EvEmuCanvas | EvResize _ _ _ | EvGameStart => true
  | _ => false
  end.

Inductive AppEvent :=
| FileChange (has_file : bool)
| LoadClick
| Env (e : Event) (t0 t1 : Q).

(** One task of the page. A click reaches the handler only while the
    button is enabled and the panel displayed; after an environment event
    the pending continuation runs, [t0] and [t1] being the time readings it
    would take. *)
Definition app_step (a : App) (ev : AppEvent) : App :=
  match ev with
  | FileChange has_file => onFileChange has_file a
  | LoadClick => if loadBtnEnabled a && panelShown a then onLoadClick a else a
  | Env e t0 t1 =>
      if is_env e then
        afterAwait t0 t1
          {| world := step (world a) e; panelShown := panelShown a;
             fileSelected := fileSelected a; loadBtnEnabled := loadBtnEnabled a;
             spinner := spinner a; overlayHidden := overlayHidden a; awaiting := awaiting a |}
      else a
  end.

Definition app_run (evs : list AppEvent) (a : App) : App := fold_left app_step evs a.

(** The invariant of the page. *)
Definition app_inv (a : App) : Prop :=
  Reachable (world a) /\
  has_texture (world a) = true /\
  length (promises (win (world a))) <= 1 /\
  (panelShown a = true -> promises (win (world a)) = [] /\ awaiting a = None) /\
  (forall n, awaiting a = Some n -> promises (win (world a)) !! n = Some Pending) /\
  (awaiting a <> None -> overlayHidden a = false) /\
  (overlayHidden a = false -> rafId (scene (world a)) = None) /\
  (overlayHidden a = true ->
     rafId (scene (world a)) <> None /\ isReady (bridge (world a)) = true /\
     panelShown a = false).


(* ===================================================================== *)
(** * Properties of the fragment program *)
(* ===================================================================== *)

(** ** Rounding to binary32 *)

Module Binary32Facts.
Import Binary32.
Local Open Scope Q_scope.

Lemma pow2_pos k : 0 < pow2 k.
Proof. apply Qpower_0_lt. reflexivity. Qed.

Lemma pow2_le k k' : (k <= k')%Z -> pow2 k <= pow2 k'.
Proof. intros H. apply Qpower_le_compat_l; [exact H | discriminate]. Qed.

Lemma pow2_succ k : pow2 (k + 1) == 2 * pow2 k.
Proof. unfold pow2. rewrite Qpower_plus by discriminate. rewrite Qpower_1_r. ring. Qed.

Lemma pow2_nonneg_Z k : (0 <= k)%Z -> pow2 k == inject_Z (2 ^ k).
Proof. intros H. unfold pow2. now rewrite Zpower_Qpower. Qed.

Lemma rne_half y : Qabs (inject_Z (rne y) - y) <= 1 # 2.
Proof.
  pose proof (Qfloor_le y) as Hlo. pose proof (Qlt_floor y) as Hhi.
  rewrite inject_Z_plus in Hhi. change (inject_Z 1) with 1 in Hhi.
  apply Qabs_Qle_condition. unfold rne.
  destruct (Qcompare_spec (y - inject_Z (Qfloor y)) (1 # 2)) as [He | Hl | Hg].
  - destruct (Z.even (Qfloor y)).
    + split; lra.
    + rewrite inject_Z_plus. change (inject_Z 1) with 1. split; lra.
  - split; lra.
  - rewrite inject_Z_plus. change (inject_Z 1) with 1. split; lra.
Qed.

Lemma ilog2_le x : 0 < x -> pow2 (ilog2 x) <= x.
Proof.
  intros Hx. unfold ilog2.
  destruct (Qle_bool _ x) eqn:E; [now apply Qle_bool_iff|].
  destruct x as [n d]. simpl Qnum. simpl Qden.
  assert (Hn : (0 < n)%Z).
  { unfold Qlt in Hx. simpl in Hx. lia. }
  pose proof (Z.log2_spec n Hn) as [Hn1 _].
  pose proof (Z.log2_spec (Zpos d) (Pos2Z.is_pos d)) as [_ Hd2].
  pose proof (Z.log2_nonneg n) as Hln. pose proof (Z.log2_nonneg (Zpos d)) as Hld.
  set (a := Z.log2 n) in *. set (b := Z.log2 (Zpos d)) in *.
  replace (a - b - 1)%Z with (a - (b + 1))%Z by lia.
  unfold pow2. rewrite Qpower_minus by discriminate.
  fold (pow2 a). fold (pow2 (b + 1)).
  rewrite !pow2_nonneg_Z by lia.
  replace (Z.succ b) with (b + 1)%Z in Hd2 by lia.
  assert (Hpb : (0 < 2 ^ (b + 1))%Z) by (apply Z.pow_pos_nonneg; lia).
  apply Qle_shift_div_r.
  - change 0 with (inject_Z 0). rewrite <- Zlt_Qlt. exact Hpb.
  - unfold Qle, Qmult, inject_Z. simpl. nia.
Qed.

Lemma rne_zero y : y == 0 -> rne y = 0%Z.
Proof.
  intros H. unfold rne. rewrite (Qfloor_comp y 0 H). change (Qfloor 0) with 0%Z.
  destruct (Qcompare_spec (y - inject_Z 0) (1 # 2)) as [He | Hl | Hg].
  - exfalso. change (inject_Z 0) with 0 in He. lra.
  - reflexivity.
  - exfalso. change (inject_Z 0) with 0 in Hg. lra.
Qed.

Lemma round_zero x : x == 0 -> round x == 0.
Proof.
  intros H. unfold round. rewrite rne_zero; [ring|].
  unfold Qdiv. generalize (/ ulp x). intros v. rewrite H. ring.
Qed.

Lemma Qabs_pos_lt x : ~ x == 0 -> 0 < Qabs x.
Proof.
  intros Hne. pose proof (Qabs_nonneg x) as Hnn.
  apply Qle_lteq in Hnn as [H | H]; [exact H|].
  exfalso. apply Hne. destruct (Qabs_Qle_condition x 0) as [Hc _].
  assert (Hle : Qabs x <= 0) by (rewrite <- H; apply Qle_refl).
  destruct (Hc Hle) as [H1 H2]. apply Qle_antisym; [exact H2 | exact H1].
Qed.

(** The rounding error is at most half a unit in the last place. *)
Lemma round_half_ulp (x : Q) : Qabs (round x - x) <= (1 # 2) * ulp x.
Proof.
  assert (Hu : 0 < ulp x) by apply pow2_pos.
  unfold round.
  setoid_replace (inject_Z (rne (x / ulp x)) * ulp x - x)
    with ((inject_Z (rne (x / ulp x)) - x / ulp x) * ulp x)
    using relation Qeq by (field; lra).
  rewrite Qabs_Qmult. rewrite (Qabs_pos (ulp x)) by lra.
  apply Qmult_le_compat_r; [apply rne_half | lra].
Qed.

Lemma round_zero_error x : x == 0 -> Qabs (round x - x) == 0.
Proof.
  intros H0. rewrite (round_zero x H0), H0.
  setoid_replace (0 - 0) with 0 using relation Qeq by ring. reflexivity.
Qed.

(** Below [2^(k+1)], with [k] a normal exponent, the error is at most
    [2^(k-24)]. *)
Lemma round_error (x : Q) (k : Z) :
  (-126 <= k)%Z -> Qabs x < pow2 (k + 1) -> Qabs (round x - x) <= pow2 (k - 24).
Proof.
  intros Hk Hx.
  destruct (Qeq_dec x 0) as [H0 | Hne].
  - rewrite (round_zero_error x H0). apply Qlt_le_weak, pow2_pos.
  - assert (Hm : ulp x <= pow2 (k - 23)).
    { unfold ulp. apply pow2_le.
      pose proof (ilog2_le (Qabs x) (Qabs_pos_lt x Hne)) as Hl.
      assert (Hlt : pow2 (ilog2 (Qabs x)) < pow2 (k + 1)) by (eapply Qle_lt_trans; eauto).
      apply Qpower_lt_compat_l_inv in Hlt; [lia | reflexivity]. }
    eapply Qle_trans; [apply round_half_ulp|].
    replace (k - 23)%Z with (k - 24 + 1)%Z in Hm by lia. rewrite pow2_succ in Hm. lra.
Qed.

(** The relative error is at most [2^-24], up to half the spacing of the
    subnormal numbers. *)
Lemma round_error_rel (x : Q) :
  Qabs (round x - x) <= pow2 (-24) * Qabs x + pow2 (-150).
Proof.
  pose proof (pow2_pos (-24)) as H24. pose proof (pow2_pos (-150)) as H150.
  pose proof (Qabs_nonneg x) as Hnn.
  destruct (Qeq_dec x 0) as [H0 | Hne].
  - rewrite (round_zero_error x H0). nra.
  - pose proof (ilog2_le (Qabs x) (Qabs_pos_lt x Hne)) as Hl.
    eapply Qle_trans; [apply round_half_ulp|]. unfold ulp.
    destruct (Z.max_spec (ilog2 (Qabs x)) (-126)) as [[Hlt ->] | [Hge ->]].
    + replace (-126 - 23)%Z with (-150 + 1)%Z by lia. rewrite pow2_succ. nra.
    + set (e := ilog2 (Qabs x)) in *.
      replace (e - 23)%Z with ((-24 + e) + 1)%Z by lia. rewrite pow2_succ.
      unfold pow2 at 1. rewrite Qpower_plus by discriminate. fold (pow2 (-24)) (pow2 e).
      nra.
Qed.

End Binary32Facts.

Module ShaderFacts.
Import CRTShader.
Local Open Scope R_scope.

Lemma Rltb_true (a b : R) : Rltb a b = true <-> a < b.
Proof. unfold Rltb. destruct (Rlt_dec a b); split; intros; auto; discriminate. Qed.

Lemma Rltb_false (a b : R) : Rltb a b = false <-> b <= a.
Proof. unfold Rltb. destruct (Rlt_dec a b); split; intros; auto; try discriminate; lra. Qed.

Lemma clipped_true (uv : vec2) :
  clipped uv = true <-> (vx uv < 0 \/ 1 < vx uv \/ vy uv < 0 \/ 1 < vy uv).
Proof. unfold clipped. rewrite !orb_true_iff, !Rltb_true. tauto. Qed.

Lemma clipped_false (uv : vec2) :
  clipped uv = false <-> (0 <= vx uv <= 1 /\ 0 <= vy uv <= 1).
Proof. unfold clipped. rewrite !orb_false_iff, !Rltb_false. tauto. Qed.

Lemma glsl_pow_pos (x y : R) : 0 < x -> glsl_pow x y = Some (Rpower x y).
Proof. intros Hx. unfold glsl_pow. destruct (Rlt_dec 0 x); [reflexivity | contradiction]. Qed.

Lemma glsl_pow_zero (y : R) : 0 < y -> glsl_pow 0 y = Some 0.
Proof.
  intros Hy. unfold glsl_pow.
  destruct (Rlt_dec 0 0); [lra|]. destruct (Rlt_dec 0 y); [reflexivity | contradiction].
Qed.

Lemma glsl_pow_half (x : R) : 0 <= x -> glsl_pow x 0.5 = Some (sqrt x).
Proof.
  intros [Hx | <-].
  - rewrite glsl_pow_pos by assumption. f_equal.
    replace 0.5 with (/ 2) by lra. now apply Rpower_sqrt.
  - rewrite glsl_pow_zero by lra. now rewrite sqrt_0.
Qed.

Lemma scanline_raw_range (uvy resy : R) : 0 <= scanline_raw uvy resy <= 1.
Proof. unfold scanline_raw. pose proof (SIN_bound (uvy * resy * PI_lit)). lra. Qed.

Lemma scanline_sqrt (uvy resy : R) : scanline uvy resy = Some (sqrt (scanline_raw uvy resy)).
Proof. unfold scanline. apply glsl_pow_half, scanline_raw_range. Qed.

Lemma PI_lit_pos : 0 < PI_lit.
Proof. unfold PI_lit. lra. Qed.

Lemma PI_between : 3 < PI <= 4.
Proof. pose proof PI2_3_2. pose proof PI_4. lra. Qed.

Lemma scanline_raw_period (uvy resy : R) :
  resy <> 0 -> scanline_raw (uvy + 2 * PI / (resy * PI_lit)) resy = scanline_raw uvy resy.
Proof.
  intros Hr. unfold scanline_raw. pose proof PI_lit_pos.
  replace ((uvy + 2 * PI / (resy * PI_lit)) * resy * PI_lit)
    with (uvy * resy * PI_lit + 2 * INR 1 * PI) by (simpl; field; lra).
  now rewrite sin_period.
Qed.

Lemma scanline_raw_half_period (uvy resy : R) :
  resy <> 0 -> scanline_raw (uvy + PI / (resy * PI_lit)) resy = 1 - scanline_raw uvy resy.
Proof.
  intros Hr. unfold scanline_raw. pose proof PI_lit_pos.
  replace ((uvy + PI / (resy * PI_lit)) * resy * PI_lit)
    with (uvy * resy * PI_lit + PI) by (field; lra).
  rewrite neg_sin. lra.
Qed.

Lemma scanline_quarter_bright : 1 / 2 < scanline_raw (1 / 4) 2.
Proof.
  unfold scanline_raw. pose proof PI_between.
  assert (0 < sin (1 / 4 * 2 * PI_lit)); [|lra].
  apply sin_gt_0; unfold PI_lit; lra.
Qed.

Lemma scanline_three_quarters_dark : scanline_raw (1 / 4 + 1 / 2) 2 < 1 / 2.
Proof.
  unfold scanline_raw. pose proof PI_between.
  assert (sin ((1 / 4 + 1 / 2) * 2 * PI_lit) < 0); [|lra].
  apply sin_lt_0; unfold PI_lit; lra.
Qed.

(** On a fragment that is not clipped, [main] is the product of its stages. *)
Lemma main_unclipped (u : Uniforms) (tex : sampler2D) (vUv : vec2) :
  let uv := barrelDistort vUv (uBarrelStrength u * 0.3) in
  clipped uv = false ->
  main u tex vUv =
    match vignette uv (uVignetteStrength u) with
    | Some v =>
        Some (scale_rgb (scale_rgb (scale_rgb (glow
          (scale_rgb (sampleChromatic tex uv (uChromaticAberration u))
             (mix 1 (sqrt (scanline_raw (vy uv) (vy (uResolution u))))
                  (uScanlineIntensity u))))
          (uBrightness u)) (flicker (uTime u))) v)
    | None => None
    end.
Proof.
  intros uv Hc. unfold main. fold uv. rewrite Hc, scanline_sqrt. reflexivity.
Qed.

(** C3, as stated, fails: with an output height of 2 rows the scanline
    factor at [uv.y = 1/4] and one row further down, at [uv.y = 3/4], differ
    (bright row, dark row), so the factor does not go through a full period
    per output row: [H] full periods do not fit in [0,1]. *)
Lemma scanline_not_periodic_per_row :
  (scanline (1 / 4 + 1 / 2) 2 <> scanline (1 / 4) 2) /\
  ~ has_period (fun y => scanline y 2) (1 / 2).
Proof.
  assert (Hne : scanline (1 / 4 + 1 / 2) 2 <> scanline (1 / 4) 2).
  { rewrite !scanline_sqrt. intros Heq. injection Heq as Heq.
    apply sqrt_inj in Heq; try apply scanline_raw_range.
    pose proof scanline_quarter_bright. pose proof scanline_three_quarters_dark. lra. }
  split; [exact Hne|]. intros Hp. exact (Hne (Hp (1 / 4))).
Qed.

(** C3, amended: on every fragment that survives the clip, the scanline
    factor is [sin(uv.y * H * 3.14159265) * 0.5 + 0.5], which lies in [0,1],
    then its square root, again in [0,1], and [main] multiplies the sampled
    colour by [mix(1, scanline, scanlineIntensity)]. As a function of [uv.y]
    the factor has period [2*PI / (H * 3.14159265)], about [2/H]: a shift by
    half of that mirrors the rectified sinusoid, so about [H/2] full periods
    fit in [0,1], one per two output rows. *)
Theorem scanline_modulation (u : Uniforms) (tex : sampler2D) (vUv : vec2) :
  let uv := barrelDistort vUv (uBarrelStrength u * 0.3) in
  let resy := vy (uResolution u) in
  let raw := scanline_raw (vy uv) resy in
  clipped uv = false ->
  resy <> 0 ->
  raw = sin (vy uv * resy * PI_lit) * 0.5 + 0.5 /\
  0 <= raw <= 1 /\
  scanline (vy uv) resy = Some (sqrt raw) /\
  0 <= sqrt raw <= 1 /\
  has_period (fun y => scanline y resy) (2 * PI / (resy * PI_lit)) /\
  (forall y, scanline_raw (y + PI / (resy * PI_lit)) resy = 1 - scanline_raw y resy) /\
  main u tex vUv =
    match vignette uv (uVignetteStrength u) with
    | Some v =>
        Some (scale_rgb (scale_rgb (scale_rgb (glow
          (scale_rgb (sampleChromatic tex uv (uChromaticAberration u))
             (mix 1 (sqrt raw) (uScanlineIntensity u))))
          (uBrightness u)) (flicker (uTime u))) v)
    | None => None
    end.
Proof.
  intros uv resy raw Hc Hr.
  pose proof (scanline_raw_range (vy uv) resy) as Hb. fold raw in Hb.
  repeat split; try lra.
  - apply scanline_sqrt.
  - apply sqrt_pos.
  - rewrite <- sqrt_1. apply sqrt_le_1; lra.
  - intros y. rewrite !scanline_sqrt. now rewrite scanline_raw_period.
  - intros y. now apply scanline_raw_half_period.
  - now apply main_unclipped.
Qed.

Lemma scanline_modulation_witness :
  clipped (barrelDistort (V2 0.5 0.5)
             (uBarrelStrength (set_uResolution (V2 800 600) default_uniforms) * 0.3)) = false /\
  vy (uResolution (set_uResolution (V2 800 600) default_uniforms)) <> 0 /\
  has_period (fun y => scanline y 600) (2 * PI / (600 * PI_lit)).
Proof.
  assert (Hc : clipped (barrelDistort (V2 0.5 0.5)
             (uBarrelStrength (set_uResolution (V2 800 600) default_uniforms) * 0.3)) = false).
  { apply clipped_false. unfold barrelDistort, dot2. simpl. lra. }
  assert (Hr : vy (uResolution (set_uResolution (V2 800 600) default_uniforms)) <> 0).
  { simpl. lra. }
  split; [exact Hc | split; [exact Hr |]].
  exact (proj1 (proj2 (proj2 (proj2 (proj2
    (scanline_modulation (set_uResolution (V2 800 600) default_uniforms)
       grey_texture (V2 0.5 0.5) Hc Hr)))))).
Defined.

(** C4: the distorted coordinate is
    [uv + (uv - 0.5) * dot(uv - 0.5, uv - 0.5) * k] with
    [k = barrelStrength * 0.3]; with [barrelStrength = 0] it is [uv] itself;
    and a fragment whose distorted coordinate leaves the unit square is
    written as opaque black whatever the texture and the other uniforms
    are, no later stage taking part. *)
Theorem barrel_distortion (u : Uniforms) (tex : sampler2D) (vUv : vec2) :
  let k := uBarrelStrength u * 0.3 in
  let d := (vx vUv - 0.5) * (vx vUv - 0.5) + (vy vUv - 0.5) * (vy vUv - 0.5) in
  let uv := barrelDistort vUv k in
  uv = V2 (vx vUv + (vx vUv - 0.5) * d * k) (vy vUv + (vy vUv - 0.5) * d * k) /\
  barrelDistort vUv (0 * 0.3) = vUv /\
  (vx uv < 0 \/ 1 < vx uv \/ vy uv < 0 \/ 1 < vy uv -> main u tex vUv = Some (V4 0 0 0 1)).
Proof.
  intros k d uv. split; [reflexivity | split].
  - destruct vUv as [x y]. unfold barrelDistort, dot2. simpl. f_equal; lra.
  - intros Hout. apply clipped_true in Hout. unfold main. fold k. fold uv.
    now rewrite Hout.
Qed.

Lemma barrel_distortion_witness :
  vx (barrelDistort (V2 0 0) (uBarrelStrength default_uniforms * 0.3)) < 0 /\
  main default_uniforms grey_texture (V2 0 0) = Some (V4 0 0 0 1).
Proof.
  assert (Hx : vx (barrelDistort (V2 0 0) (uBarrelStrength default_uniforms * 0.3)) < 0).
  { unfold barrelDistort, dot2. simpl. lra. }
  split; [exact Hx |].
  exact (proj2 (proj2 (barrel_distortion default_uniforms grey_texture (V2 0 0)))
           (or_introl Hx)).
Defined.

Lemma round_literal : (Binary32.round (3 # 1000) == 6442451 # 2147483648)%Q.
Proof. vm_compute. reflexivity. Qed.

Lemma pow2_m8 : (Binary32.pow2 (-9 + 1) == 1 # 256)%Q.
Proof. vm_compute. reflexivity. Qed.
Lemma pow2_m33 : (Binary32.pow2 (-9 - 24) == 1 # 8589934592)%Q.
Proof. vm_compute. reflexivity. Qed.
Lemma pow2_1 : (Binary32.pow2 (0 + 1) == 2)%Q.
Proof. vm_compute. reflexivity. Qed.
Lemma pow2_m24 : (Binary32.pow2 (0 - 24) == 1 # 16777216)%Q.
Proof. vm_compute. reflexivity. Qed.

(** The three roundings together move the result by less than [10^-7]. *)
Lemma flicker_of_sin_error (fused : bool) (s : Q) :
  (-1 <= s <= 1)%Q ->
  (Qabs (flicker_of_sin fused s - (1 + s * (3 # 1000))) <= 1 # 10000000)%Q.
Proof.
  intros Hs. unfold flicker_of_sin. cbv zeta.
  set (c0 := Binary32.round (3 # 1000)).
  assert (Hp : (s * c0 == s * (6442451 # 2147483648))%Q).
  { unfold c0. now rewrite round_literal. }
  set (p := (s * c0)%Q) in *.
  assert (Hpabs : (Qabs p < Binary32.pow2 (-9 + 1))%Q).
  { rewrite pow2_m8. apply Qabs_Qlt_condition. lra. }
  set (p' := if fused then p else Binary32.round p).
  assert (Hp' : (Qabs (p' - p) <= 1 # 8589934592)%Q).
  { unfold p'. destruct fused.
    - setoid_replace (p - p)%Q with 0%Q using relation Qeq by ring. discriminate.
    - rewrite <- pow2_m33. apply Binary32Facts.round_error; [lia | exact Hpabs]. }
  apply Qabs_Qle_condition in Hp'.
  assert (Hy : (Qabs (1 + p') < Binary32.pow2 (0 + 1))%Q).
  { rewrite pow2_1. apply Qabs_Qlt_condition. lra. }
  pose proof (Binary32Facts.round_error (1 + p')%Q 0 ltac:(lia) Hy) as He.
  rewrite pow2_m24 in He. apply Qabs_Qle_condition in He.
  apply Qabs_Qle_condition. lra.
Qed.

Lemma pow2_m24_abs : (Binary32.pow2 (-24) == 1 # 16777216)%Q.
Proof. vm_compute. reflexivity. Qed.

(** C8, amended: in the single-precision arithmetic of the shader, with [s]
    the value the GPU's sine returns for the rounded [uTime * 60.0] and
    [-1 <= s <= 1], the flicker multiplier is within [10^-7] of
    [1 + 0.003 * s] and so lies between [0.997 - 10^-7] and
    [1.003 + 10^-7]; a non-negative colour value it multiplies stays
    between 99.7% and 100.3% of what it was, up to two parts in [10^7]
    and the smallest normal float; and its distance from the exact
    [1 + 0.003 * sin(60 * t)] is at most [0.003] times the error of the
    GPU's sine, plus [10^-7]. This holds with and without a fused
    multiply-add. *)
Theorem flicker_bounds (fused : bool) (gsin : Q -> Q) (uTime c : Q) (t : R) :
  let s := gsin (Binary32.round (uTime * 60)%Q) in
  let f := flicker_f32 fused gsin uTime in
  (-1 <= s <= 1)%Q ->
  (Qabs (f - (1 + s * (3 # 1000))) <= 1 # 10000000)%Q /\
  ((997 # 1000) - (1 # 10000000) <= f <= (1003 # 1000) + (1 # 10000000))%Q /\
  (0 <= c ->
   ((997 # 1000) - (2 # 10000000)) * c - Binary32.pow2 (-126) <= Binary32.round (c * f)
     <= ((1003 # 1000) + (2 # 10000000)) * c + Binary32.pow2 (-126))%Q /\
  Rabs (Q2R f - flicker t) <= 0.003 * Rabs (Q2R s - sin (t * 60)) + 1 / 10000000.
Proof.
  intros s f Hs.
  pose proof (flicker_of_sin_error fused s Hs) as He.
  change (flicker_of_sin fused s) with f in He.
  assert (Hb : ((997 # 1000) - (1 # 10000000) <= f <= (1003 # 1000) + (1 # 10000000))%Q).
  { apply Qabs_Qle_condition in He. lra. }
  split; [exact He | split; [exact Hb | split]].
  - intros Hc.
    pose proof (Binary32Facts.round_error_rel (c * f)%Q) as Hr.
    assert (Hcf : (((997 # 1000) - (1 # 10000000)) * c <= c * f
                   <= ((1003 # 1000) + (1 # 10000000)) * c)%Q) by nra.
    rewrite pow2_m24_abs in Hr. rewrite (Qabs_pos (c * f)%Q) in Hr by lra.
    apply Qabs_Qle_condition in Hr.
    pose proof (Binary32Facts.pow2_pos (-150)) as Hp.
    pose proof (Binary32Facts.pow2_le (-150) (-126) ltac:(lia)) as Hq. lra.
  - apply Qabs_Qle_condition in He. destruct He as [He1 He2].
    apply Qle_Rle in He1, He2.
    rewrite Q2R_opp in He1. rewrite Q2R_minus, Q2R_plus, Q2R_mult in He1, He2.
    assert (H1 : Q2R 1 = 1) by (unfold Q2R; simpl; lra).
    assert (H3 : Q2R (3 # 1000) = 3 / 1000) by (unfold Q2R; simpl; lra).
    assert (H7 : Q2R (1 # 10000000) = 1 / 10000000) by (unfold Q2R; simpl; lra).
    rewrite H1, H3, H7 in He1, He2. unfold flicker.
    unfold Rabs. destruct (Rcase_abs _); destruct (Rcase_abs _); lra.
Qed.

(** At [uTime = 1/128], with the cubic Taylor polynomial for the sine. *)
Lemma flicker_bounds_witness :
  (-1 <= (fun x : Q => (x - x * x * x / 6)%Q) (Binary32.round ((1 # 128) * 60)) <= 1)%Q /\
  ((997 # 1000) - (1 # 10000000)
     <= flicker_f32 false (fun x : Q => (x - x * x * x / 6)%Q) (1 # 128)
     <= (1003 # 1000) + (1 # 10000000))%Q.
Proof.
  assert (Hs : (-1 <= (fun x : Q => (x - x * x * x / 6)%Q) (Binary32.round ((1 # 128) * 60)) <= 1)%Q).
  { split; vm_compute; discriminate. }
  split; [exact Hs|].
  exact (proj1 (proj2 (flicker_bounds false (fun x : Q => (x - x * x * x / 6)%Q) (1 # 128) 0 0 Hs))).
Defined.

(** C8, as stated, fails in single precision: where the sine returns 1, or
    0.99999, the multiplier is [4206887 / 4194304], about 1.00300002,
    above 1.003; where it returns -1 the multiplier is
    [4181721 / 4194304], about 0.99699998, below 0.997. *)
Lemma flicker_exceeds_in_single_precision :
  (flicker_of_sin false 1 == 4206887 # 4194304 /\ flicker_of_sin true 1 == 4206887 # 4194304 /\
   1003 # 1000 < flicker_of_sin false 1 /\
   1003 # 1000 < flicker_of_sin false (99999 # 100000) /\
   flicker_of_sin false (-1) == 4181721 # 4194304 /\
   flicker_of_sin false (-1) < 997 # 1000)%Q.
Proof. repeat split; vm_compute; reflexivity. Qed.

(** C9: with [vignetteStrength = 0] the vignette multiplier is 1 at every
    [uv] strictly inside the unit square; and on the unit square the
    geometric term [uv * (1 - uv.yx)] has a zero component exactly on the
    border. *)
Theorem vignette_strength_zero (uv : vec2) :
  (0 < vx uv < 1 -> 0 < vy uv < 1 -> vignette uv 0 = Some 1) /\
  (0 <= vx uv <= 1 -> 0 <= vy uv <= 1 ->
   (vx (vigUv uv) = 0 \/ vy (vigUv uv) = 0) <->
   (vx uv = 0 \/ vx uv = 1 \/ vy uv = 0 \/ vy uv = 1)).
Proof.
  destruct uv as [x y]. simpl. split.
  - intros Hx Hy. unfold vignette. simpl.
    assert (0 < x * (1 - y) * (y * (1 - x)) * 15).
    { apply Rmult_lt_0_compat; [|lra].
      apply Rmult_lt_0_compat; apply Rmult_lt_0_compat; lra. }
    rewrite glsl_pow_pos by assumption. f_equal. now apply Rpower_O.
  - intros Hx Hy. split.
    + intros [H | H]; apply Rmult_integral in H; destruct H; lra.
    + intros [-> | [-> | [-> | ->]]]; lra.
Qed.

Lemma vignette_strength_zero_witness :
  0 < 0.5 < 1 /\ vignette (V2 0.5 0.5) 0 = Some 1.
Proof.
  assert (H : 0 < 0.5 < 1) by lra.
  split; [exact H |].
  exact (proj1 (vignette_strength_zero (V2 0.5 0.5)) H H).
Defined.

End ShaderFacts.

(* ===================================================================== *)
(** * Properties of the scheduler and of the bridge *)
(* ===================================================================== *)

Local Open Scope nat_scope.

(** [main()] either fails in the bridge constructor or yields [boot]. *)
Lemma main_boot_cases (container_found : bool) :
  main_boot container_found = if container_found then Some boot else None.
Proof. destruct container_found; reflexivity. Qed.

(** ** What a tick does *)

Ltac tick_cases :=
  unfold tick, stream_frame; simpl;
  repeat match goal with
         | |- context [match ?x with _ => _ end] => destruct x eqn:?; simpl
         end; try reflexivity; try congruence.

Lemma tick_bridge now w : bridge (tick now w) = bridge w.
Proof. tick_cases. Qed.

Lemma tick_rafId now w : rafId (scene (tick now w)) = Some (nextRaf (win w)).
Proof. tick_cases. Qed.

Lemma tick_rafQueue now w :
  rafQueue (win (tick now w)) = rafQueue (win w) ++ [nextRaf (win w)].
Proof. tick_cases. Qed.

Lemma tick_renders now w : renders (scene (tick now w)) = S (renders (scene w)).
Proof. tick_cases. Qed.

Lemma tick_clock now w :
  clock (scene (tick now w)) = snd (THREE.getElapsedTime now (clock (scene w))).
Proof. tick_cases. Qed.

Lemma tick_uTime now w :
  uTime (scene (tick now w)) = fst (THREE.getElapsedTime now (clock (scene w))).
Proof. tick_cases. Qed.

Lemma tick_screenMesh now w :
  screenMesh (scene (tick now w)) =
    match isReady (bridge w), screenMesh (scene w) with
    | true, Some tex =>
        Some (THREE.set_needsUpdate
                (if decide (THREE.image tex = outputCanvas (bridge w)) then tex
                 else THREE.set_image (outputCanvas (bridge w)) tex))
    | _, _ => screenMesh (scene w)
    end.
Proof. tick_cases. Qed.

Lemma getElapsedTime_running now c :
  THREE.running c = true -> THREE.running (snd (THREE.getElapsedTime now c)) = true.
Proof.
  intros Hr. unfold THREE.getElapsedTime, THREE.getDelta. simpl.
  rewrite Hr, andb_false_r. reflexivity.
Qed.

(** ** The scheduler invariant *)

(** The scheduling state a tick leaves behind, when it ran on an empty queue. *)
Lemma tick_sched_inv now w :
  rafQueue (win w) = [] -> THREE.running (clock (scene w)) = true -> sched_inv (tick now w).
Proof.
  intros Hq Hr. unfold sched_inv.
  rewrite tick_rafQueue, tick_rafId, tick_uTime, tick_clock, Hq.
  repeat split. intros _. now apply getElapsedTime_running.
Qed.

Lemma observer_callback_scene o w :
  scene (observer_callback o w) = scene w /\
  rafQueue (win (observer_callback o w)) = rafQueue (win w).
Proof. unfold observer_callback. destruct (_ <? _)%Z; simpl; auto. Qed.

Lemma notify_scene h w :
  scene (notify h w) = scene w /\ rafQueue (win (notify h w)) = rafQueue (win w).
Proof.
  unfold notify. generalize (observers (win w)) as os. intros os. revert w.
  induction os as [|o os IH]; intros w; simpl; [auto|].
  destruct (decide (target o = h)).
  - destruct (IH (observer_callback o w)) as [-> ->]. apply observer_callback_scene.
  - apply IH.
Qed.

Lemma resizeCanvas_scene h cw ch w :
  scene (resizeCanvas h cw ch w) = scene w /\
  rafQueue (win (resizeCanvas h cw ch w)) = rafQueue (win w).
Proof.
  unfold resizeCanvas. destruct (decide _); [auto|].
  destruct (canvases (win w) !! h); [|auto].
  destruct (notify_scene h (with_win (fun b =>
    set_canvases (<[h := {| width := canvas_dimension 300 cw;
                            height := canvas_dimension 150 ch |}]> (canvases b)) b) w)) as [-> ->].
  auto.
Qed.

Lemma gameStart_scene w :
  scene (gameStart w) = scene w /\ rafQueue (win (gameStart w)) = rafQueue (win w).
Proof.
  unfold gameStart, onGameStart. destruct (EJS_onGameStart (win w)); [|auto]. simpl.
  destruct (EJS_emulator_canvas (win w)); simpl; [|auto].
  destruct (_ <? _)%Z; simpl; auto.
Qed.

Lemma sched_inv_boot : sched_inv boot.
Proof. unfold sched_inv. simpl. repeat split. intros H. now contradiction H. Qed.

Lemma sched_inv_of_scene w w' :
  scene w' = scene w -> rafQueue (win w') = rafQueue (win w) -> sched_inv w -> sched_inv w'.
Proof. unfold sched_inv. intros -> ->. auto. Qed.

Lemma sched_inv_step w e : sched_inv w -> sched_inv (step w e).
Proof.
  intros Hi. destruct e as [| t0 t1 | | now | | n | | h cw ch |]; simpl.
  - exact Hi.
  - unfold start. destruct Hi as (Hq & Ht & Hr).
    destruct (rafId (scene w)) eqn:Hid; [repeat split; auto; now rewrite Hid|].
    apply tick_sched_inv; [exact Hq | reflexivity].
  - unfold stop. destruct Hi as (Hq & Ht & Hr).
    destruct (rafId (scene w)) eqn:Hid; [|repeat split; auto; now rewrite Hid].
    unfold sched_inv. simpl. rewrite Hq. simpl.
    rewrite filter_cons_False by (intros H; now apply H).
    repeat split; auto.
  - unfold frame. destruct Hi as (Hq & Ht & Hr). rewrite Hq.
    destruct (rafId (scene w)) eqn:Hid; simpl.
    + apply tick_sched_inv; [reflexivity|]. simpl. apply Hr. discriminate.
    + unfold sched_inv. simpl. rewrite Hid. repeat split; auto.
  - eapply sched_inv_of_scene; [| |exact Hi]; reflexivity.
  - eapply sched_inv_of_scene; [| |exact Hi]; reflexivity.
  - eapply sched_inv_of_scene; [| |exact Hi]; reflexivity.
  - eapply sched_inv_of_scene; [| |exact Hi]; apply resizeCanvas_scene.
  - eapply sched_inv_of_scene; [| |exact Hi]; apply gameStart_scene.
Qed.

Lemma run_snoc evs e w : run (evs ++ [e]) w = step (run evs w) e.
Proof. unfold run. now rewrite fold_left_app. Qed.

Lemma run_app evs1 evs2 w : run (evs1 ++ evs2) w = run evs2 (run evs1 w).
Proof. unfold run. now rewrite fold_left_app. Qed.

(** Induction over the events that led to a reachable world. *)
Lemma reachable_ind (P : World -> Prop) :
  P boot -> (forall w e, Reachable w -> P w -> P (step w e)) ->
  forall w, Reachable w -> P w.
Proof.
  intros Hb Hs w [evs ->].
  induction evs as [|e evs IH] using rev_ind; [exact Hb|].
  rewrite run_snoc. apply Hs; [now exists evs | exact IH].
Qed.

Lemma reachable_sched_inv w : Reachable w -> sched_inv w.
Proof.
  apply reachable_ind; [exact sched_inv_boot|].
  intros w' e _. apply sched_inv_step.
Qed.

(** ** Starting and stopping *)

Lemma stop_idle w : sched_inv w -> idle (stop w).
Proof.
  intros (Hq & _). unfold idle, stop.
  destruct (rafId (scene w)) eqn:Hid; simpl; [|auto].
  rewrite Hq. split; [reflexivity|]. now rewrite filter_cons_False by (intros H; now apply H).
Qed.

Lemma idle_step w e :
  idle w -> is_start e = false ->
  idle (step w e) /\ renders (scene (step w e)) = renders (scene w)
  /\ polls (scene (step w e)) = polls (scene w).
Proof.
  intros [Hid Hq] He. unfold idle.
  destruct e as [| t0 t1 | | now | | n | | h cw ch |]; simpl in *; try discriminate; auto.
  - unfold stop. rewrite Hid. auto.
  - unfold frame. rewrite Hq. simpl. auto.
  - destruct (resizeCanvas_scene h cw ch w) as [-> ->]. auto.
  - destruct (gameStart_scene w) as [-> ->]. auto.
Qed.

Lemma idle_run evs w :
  idle w -> forallb (fun e => negb (is_start e)) evs = true ->
  idle (run evs w) /\ renders (scene (run evs w)) = renders (scene w)
  /\ polls (scene (run evs w)) = polls (scene w).
Proof.
  revert w. induction evs as [|e evs IH]; intros w Hi Hall; simpl in *; [auto|].
  apply andb_true_iff in Hall as [He Hall]. apply negb_true_iff in He.
  destruct (idle_step w e Hi He) as (Hi' & Hr & Hp).
  destruct (IH _ Hi' Hall) as (? & -> & ->). auto.
Qed.

Lemma stop_counts w :
  renders (scene (stop w)) = renders (scene w) /\ polls (scene (stop w)) = polls (scene w).
Proof. unfold stop. destruct (rafId (scene w)); auto. Qed.

(** C6: [start()] on a scheduler that is running (its [#rafId] is set)
    changes nothing, [stop()] on a stopped one changes nothing; in a
    reachable world the scheduler is running exactly when an animation
    frame is pending; and after [stop()], whatever happens short of a
    [start()], no frame is pending and no tick runs: the counts of
    [composer.render()] and [inputRouter.poll()] calls stay where they
    were. *)
Theorem start_stop_idempotent (w : World) (evs : list Event) :
  Reachable w ->
  forallb (fun e => negb (is_start e)) evs = true ->
  (forall w' t0 t1, rafId (scene w') <> None -> start t0 t1 w' = w') /\
  (forall w', rafId (scene w') = None -> stop w' = w') /\
  (rafId (scene w) <> None <-> rafQueue (win w) <> []) /\
  rafQueue (win (run evs (stop w))) = [] /\
  renders (scene (run evs (stop w))) = renders (scene w) /\
  polls (scene (run evs (stop w))) = polls (scene w).
Proof.
  intros Hw Hevs. apply reachable_sched_inv in Hw.
  split; [|split; [|split]].
  - intros w' t0 t1 Hid. unfold start. destruct (rafId (scene w')); [reflexivity | contradiction].
  - intros w' Hid. unfold stop. now rewrite Hid.
  - destruct Hw as (Hq & _). rewrite Hq. destruct (rafId (scene w)); split; congruence.
  - destruct (idle_run evs (stop w) (stop_idle w Hw) Hevs) as ([_ Hq] & Hr & Hp).
    destruct (stop_counts w) as [<- <-]. auto.
Qed.

Lemma start_stop_idempotent_witness :
  Reachable (run [EvInit; EvStart 0 0; EvFrame 16] boot) /\
  rafQueue (win (run [EvFrame 32; EvLoadROM; EvStop; EvFrame 48]
                  (stop (run [EvInit; EvStart 0 0; EvFrame 16] boot)))) = [].
Proof.
  assert (Hw : Reachable (run [EvInit; EvStart 0 0; EvFrame 16] boot)) by (eexists; reflexivity).
  split; [exact Hw|].
  exact (proj1 (proj2 (proj2 (proj2
    (start_stop_idempotent _ [EvFrame 32; EvLoadROM; EvStop; EvFrame 48] Hw eq_refl))))).
Defined.

(** ** The time uniform across runs *)




(** ** Marking the texture dirty *)

(** C1, as stated, fails: with the scene initialised and the loop started
    before any ROM is loaded, the bridge is not ready, the next animation
    frame runs a tick (one more render), and the texture is not marked
    dirty by it. *)
Lemma tick_before_ready_not_marked :
  isReady (bridge (run [EvInit; EvStart 0 0] boot)) = false /\
  has_texture (run [EvInit; EvStart 0 0] boot) = true /\
  renders (scene (frame 16 (run [EvInit; EvStart 0 0] boot))) =
    S (renders (scene (run [EvInit; EvStart 0 0] boot))) /\
  marks_dirty (run [EvInit; EvStart 0 0] boot)
              (frame 16 (run [EvInit; EvStart 0 0] boot)) = false.
Proof. vm_compute. auto. Qed.

(** C1, amended: a tick marks the streamed texture dirty exactly when the
    bridge is ready and the screen mesh exists; it then reads the canvas
    [outputCanvas] returns and its version is one higher. While the bridge
    is not ready a tick leaves the texture as it is. *)
Theorem tick_marks_dirty_when_ready (now : Q) (w : World) :
  marks_dirty w (tick now w) = isReady (bridge w) && has_texture w /\
  (isReady (bridge w) = true -> forall tex, screenMesh (scene w) = Some tex ->
     screenMesh (scene (tick now w)) =
       Some {| THREE.image := outputCanvas (bridge w);
               THREE.version := S (THREE.version tex) |}) /\
  (isReady (bridge w) = false -> screenMesh (scene (tick now w)) = screenMesh (scene w)).
Proof.
  unfold marks_dirty, texture_version, has_texture. rewrite tick_screenMesh.
  destruct (isReady (bridge w)), (screenMesh (scene w)) as [tex|]; simpl;
    repeat split; try discriminate; try reflexivity.
  - destruct (decide _); simpl; apply Nat.ltb_lt; lia.
  - intros _ tex' [= <-]. destruct (decide _) as [<-|]; reflexivity.
  - destruct tex as [i v]. simpl. apply Nat.ltb_irrefl.
Qed.

Lemma tick_marks_dirty_when_ready_witness :
  isReady (bridge (run [EvInit] boot)) = false /\
  screenMesh (scene (tick 0 (run [EvInit] boot))) = screenMesh (scene (run [EvInit] boot)).
Proof.
  assert (H : isReady (bridge (run [EvInit] boot)) = false) by reflexivity.
  split; [exact H|].
  exact (proj2 (proj2 (tick_marks_dirty_when_ready 0 (run [EvInit] boot))) H).
Defined.

(** ** Ticks that rebind nothing *)

Lemma tick_bview now w : bview (tick now w) = bview w.
Proof. unfold bview. tick_cases. Qed.

Lemma tick_console now w :
  console (win (tick now w)) =
    console (win w) ++
    match isReady (bridge w), screenMesh (scene w) with
    | true, Some tex =>
        if decide (THREE.image tex = outputCanvas (bridge w)) then []
        else [LogTextureSwapped (width (canvas_of w (outputCanvas (bridge w))))
                                (height (canvas_of w (outputCanvas (bridge w))))]
    | _, _ => []
    end.
Proof. tick_cases; now rewrite List.app_nil_r. Qed.

Lemma same_source_quiet w0 w : same_source w0 w -> quiet w0 -> quiet w.
Proof.
  unfold same_source, quiet, bview. intros (Hb & Hi & _) Hq.
  assert (bridge w = bridge w0) as -> by congruence. now rewrite Hi.
Qed.

Lemma same_source_trans w0 w1 w2 : same_source w0 w1 -> same_source w1 w2 -> same_source w0 w2.
Proof. unfold same_source. intros (? & ? & ?) (? & ? & ?). repeat split; congruence. Qed.

Lemma tick_quiet now w : quiet w -> same_source w (tick now w).
Proof.
  intros Hq. unfold same_source, bound_image.
  rewrite tick_bview, tick_console, tick_screenMesh.
  destruct Hq as [Hr | Hb].
  - rewrite Hr. simpl. now rewrite List.app_nil_r.
  - unfold bound_image in Hb. destruct (screenMesh (scene w)) as [tex|]; [|discriminate].
    injection Hb as Hb.
    destruct (isReady (bridge w)); simpl; rewrite ?decide_True by assumption;
      now rewrite List.app_nil_r.
Qed.

Lemma ticks_quiet now (cbs : list nat) w :
  quiet w -> same_source w (fold_left (fun w _ => tick now w) cbs w).
Proof.
  revert w. induction cbs as [|c cbs IH]; intros w Hq; simpl.
  - now repeat split.
  - pose proof (tick_quiet now w Hq) as Hs.
    eapply same_source_trans; [exact Hs|]. apply IH. eapply same_source_quiet; eauto.
Qed.

Lemma sched_step_quiet w e : is_sched e = true -> quiet w -> same_source w (step w e).
Proof.
  intros He Hq. destruct e as [| t0 t1 | | now | | n | | h cw ch |]; try discriminate; simpl.
  - unfold start. destruct (rafId (scene w)); [now repeat split|].
    eapply same_source_trans; [|apply tick_quiet]; [now repeat split | exact Hq].
  - unfold stop. destruct (rafId (scene w)); now repeat split.
  - unfold frame. eapply same_source_trans; [|apply ticks_quiet]; [now repeat split | exact Hq].
Qed.

Lemma sched_run_quiet evs w :
  forallb is_sched evs = true -> quiet w -> same_source w (run evs w).
Proof.
  revert w. induction evs as [|e evs IH]; intros w Hall Hq; simpl in *.
  - now repeat split.
  - apply andb_true_iff in Hall as [He Hall].
    pose proof (sched_step_quiet w e He Hq) as Hs.
    eapply same_source_trans; [exact Hs|]. apply IH; [exact Hall|].
    eapply same_source_quiet; eauto.
Qed.

Lemma bridge_inv_bview w w' : bview w' = bview w -> bridge_inv w -> bridge_inv w'.
Proof. unfold bview, bridge_inv, real_canvas. intros [= -> -> -> -> _ -> _ _]. auto. Qed.

Lemma ticks_bview now (cbs : list nat) w :
  bview (fold_left (fun w _ => tick now w) cbs w) = bview w.
Proof.
  revert w. induction cbs as [|c cbs IH]; intros w; simpl; [reflexivity|].
  now rewrite IH, tick_bview.
Qed.

Lemma sched_step_bview w e : is_sched e = true -> bview (step w e) = bview w.
Proof.
  intros He. destruct e as [| t0 t1 | | now | | n | | h cw ch |]; try discriminate; simpl.
  - unfold start. destruct (rafId (scene w)); [reflexivity|]. now rewrite tick_bview.
  - unfold stop. destruct (rafId (scene w)); reflexivity.
  - unfold frame. now rewrite ticks_bview.
Qed.

Lemma sched_step_bridge w e : is_sched e = true -> bridge (step w e) = bridge w.
Proof. intros He. pose proof (sched_step_bview w e He) as Hv. unfold bview in Hv. congruence. Qed.

Lemma observer_callback_cases o w :
  (width (canvas_of w (target o)) <= 300)%Z /\ observer_callback o w = w \/
  (300 < width (canvas_of w (target o)))%Z /\
  observer_callback o w = markReady (target o) (load o) (disconnect o w).
Proof.
  unfold observer_callback. destruct (300 <? _)%Z eqn:E.
  - right. apply Z.ltb_lt in E. auto.
  - left. apply Z.ltb_ge in E. auto.
Qed.

Lemma canvas_of_dview w w' h : dview w' = dview w -> canvas_of w' h = canvas_of w h.
Proof. unfold dview, canvas_of. intros [= _ -> _ _]. reflexivity. Qed.

(** What notifying the observers of [h] can change. *)
Lemma notify_fold_spec h (os : list Observer) w :
  let w' := fold_left (fun w o => if decide (target o = h) then observer_callback o w else w) os w in
  dview w' = dview w /\
  scene w' = scene w /\
  EJS_onGameStart (win w') = EJS_onGameStart (win w) /\
  (forall o, o ∈ observers (win w') -> o ∈ observers (win w)) /\
  (ejsCanvas (bridge w') = ejsCanvas (bridge w) \/
   ejsCanvas (bridge w') = Some h /\ (300 < width (canvas_of w h))%Z).
Proof.
  revert w. induction os as [|o os IH]; intros w; simpl.
  - repeat split; auto.
  - destruct (decide (target o = h)) as [<-|]; [|apply IH].
    destruct (observer_callback_cases o w) as [[_ ->] | [Hw ->]]; [apply IH|].
    specialize (IH (markReady (target o) (load o) (disconnect o w))).
    destruct IH as (Hd & Hs & Hg & Ho & He).
    repeat split.
    + rewrite Hd. reflexivity.
    + rewrite Hs. reflexivity.
    + rewrite Hg. reflexivity.
    + intros o' Hin. apply Ho in Hin. simpl in Hin.
      now apply list_elem_of_filter in Hin as [_ Hin].
    + right. destruct He as [He | [He _]]; rewrite He; auto.
Qed.

Lemma bridge_inv_boot : bridge_inv boot.
Proof.
  unfold bridge_inv, real_canvas. simpl. repeat split; try discriminate; auto.
Qed.

(** ** The bridge invariant *)

Lemma bridge_inv_weaken w w' :
  placeholderCanvas (bridge w') = placeholderCanvas (bridge w) ->
  canvases (win w') !! placeholderCanvas (bridge w) = canvases (win w) !! placeholderCanvas (bridge w) ->
  (forall h, is_Some (canvases (win w) !! h) -> is_Some (canvases (win w') !! h)) ->
  (nextHandle (win w) <= nextHandle (win w'))%nat ->
  (forall c, EJS_emulator_canvas (win w') = Some c ->
     EJS_emulator_canvas (win w) = Some c \/ real_canvas w' c) ->
  (forall o, o ∈ observers (win w') -> o ∈ observers (win w) \/ real_canvas w' (target o)) ->
  (forall h, ejsCanvas (bridge w') = Some h -> ejsCanvas (bridge w) = Some h \/ real_canvas w' h) ->
  bridge_inv w -> bridge_inv w'.
Proof.
  intros Hp Hl Hmono Hn Hc Ho He (I1 & I2 & I3 & I4 & I5).
  assert (Hreal : forall h, real_canvas w h -> real_canvas w' h).
  { intros h [Hne Hs]. split; [now rewrite Hp | now apply Hmono]. }
  unfold bridge_inv. rewrite Hp, Hl. split; [|split; [|split; [|split]]]; auto.
  - lia.
  - intros c Hc'. destruct (Hc c Hc') as [H|H]; [apply Hreal, I3, H | exact H].
  - apply Forall_forall. intros o Hin. destruct (Ho o Hin) as [H|H]; [|exact H].
    apply Hreal. rewrite Forall_forall in I4. now apply I4.
  - intros h Hh. destruct (He h Hh) as [H|H]; [apply Hreal, I5, H | exact H].
Qed.

Lemma bridge_inv_step w e : bridge_inv w -> bridge_inv (step w e).
Proof.
  intros Hi. destruct e as [| t0 t1 | | now | | n | | h cw ch |];
    try (apply (bridge_inv_bview w); [now apply sched_step_bview | exact Hi]).
  - apply (bridge_inv_bview w); [reflexivity | exact Hi].
  - apply (bridge_inv_weaken w); simpl; auto. intros h [=].
  - apply (bridge_inv_weaken w); simpl; auto.
  - pose proof Hi as (I1 & I2 & _).
    refine (bridge_inv_weaken w _ _ _ _ _ _ _ _ Hi); simpl.
    + reflexivity.
    + apply lookup_insert_ne. lia.
    + intros h Hs. destruct (decide (nextHandle (win w) = h)) as [<-|Hne].
      * rewrite lookup_insert_eq. eauto.
      * now rewrite lookup_insert_ne.
    + lia.
    + intros c [= <-]. right. split; simpl; [lia|]. rewrite lookup_insert_eq. eauto.
    + auto.
    + auto.
  - simpl. unfold resizeCanvas. destruct (decide _) as [|Hne]; [exact Hi|].
    destruct (canvases (win w) !! h) as [old|] eqn:Hl; [|exact Hi]. unfold notify.
    set (w1 := with_win _ w).
    destruct (notify_fold_spec h (observers (win w1)) w1) as (Hd & Hs & Hg & Ho & He).
    set (w2 := fold_left _ _ w1) in *.
    assert (Hd1 : placeholderCanvas (bridge w2) = placeholderCanvas (bridge w)
                  /\ canvases (win w2) = <[h := {| width := canvas_dimension 300 cw;
                                                    height := canvas_dimension 150 ch |}]> (canvases (win w))
                  /\ nextHandle (win w2) = nextHandle (win w)
                  /\ EJS_emulator_canvas (win w2) = EJS_emulator_canvas (win w)).
    { unfold dview in Hd. injection Hd as -> -> -> ->. auto. }
    destruct Hd1 as (Hp & Hc & Hn & Hem).
    assert (Hh : real_canvas w2 h).
    { split; [now rewrite Hp|]. rewrite Hc, lookup_insert_eq. eauto. }
    refine (bridge_inv_weaken w _ _ _ _ _ _ _ _ Hi).
    + exact Hp.
    + rewrite Hc. apply lookup_insert_ne. auto.
    + intros h' Hs'. rewrite Hc. destruct (decide (h = h')) as [<-|Hne'].
      * rewrite lookup_insert_eq. eauto.
      * now rewrite lookup_insert_ne.
    + lia.
    + intros c' Hc'. left. congruence.
    + intros o Hin. left. now apply Ho.
    + intros h' Hh'. destruct He as [He | [He _]]; [left; simpl in He; congruence|].
      right. assert (h' = h) as -> by congruence. exact Hh.
  - simpl. unfold gameStart, onGameStart.
    destruct (EJS_onGameStart (win w)); [|exact Hi]. simpl.
    destruct (EJS_emulator_canvas (win w)) as [c|] eqn:Hc; simpl.
    + assert (Hr : real_canvas w c).
      { destruct Hi as (_ & _ & I3 & _). now apply I3. }
      destruct (300 <? _)%Z.
      * refine (bridge_inv_weaken w _ _ _ _ _ _ _ _ Hi); simpl; auto.
        intros h' [= <-]. right. exact Hr.
      * refine (bridge_inv_weaken w _ _ _ _ _ _ _ _ Hi); simpl; auto.
        intros o Hin. apply elem_of_app in Hin as [Hin|Hin]; [auto|].
        apply list_elem_of_singleton in Hin as ->. right. exact Hr.
    + refine (bridge_inv_weaken w _ _ _ _ _ _ _ _ Hi); simpl; auto.
Qed.

Lemma reachable_bridge_inv w : Reachable w -> bridge_inv w.
Proof.
  apply reachable_ind; [exact bridge_inv_boot|].
  intros w' e _. apply bridge_inv_step.
Qed.

(** ** Which surface [outputCanvas] serves *)

(** An event that makes [h] the served canvas finds it wider than 300. *)
Lemma switch_past_threshold w e h :
  ejsCanvas (bridge (step w e)) = Some h -> ejsCanvas (bridge w) <> Some h ->
  (300 < width (canvas_of (step w e) h))%Z.
Proof.
  intros Hafter Hbefore.
  destruct e as [| t0 t1 | | now | | n | | h' cw ch |];
    try (exfalso; apply Hbefore; rewrite <- Hafter;
         match goal with |- context [step ?w ?e] =>
           pose proof (sched_step_bview w e eq_refl) as Hb end;
         unfold bview in Hb; congruence).
  - contradiction.
  - discriminate.
  - contradiction.
  - contradiction.
  - simpl in *. unfold resizeCanvas in *. destruct (decide _); [contradiction|].
    destruct (canvases (win w) !! h') as [old|]; [|contradiction]. unfold notify in *.
    set (w1 := with_win _ w) in *.
    destruct (notify_fold_spec h' (observers (win w1)) w1) as (Hd & _ & _ & _ & He).
    set (w2 := fold_left _ _ w1) in *.
    destruct He as [He | [He Hw]].
    + exfalso. apply Hbefore. rewrite <- Hafter, He. reflexivity.
    + assert (h = h') as -> by congruence.
      now rewrite (canvas_of_dview w1 w2 h' Hd).
  - simpl in *. unfold gameStart, onGameStart in *.
    destruct (EJS_onGameStart (win w)); [|contradiction]. simpl in *.
    destruct (EJS_emulator_canvas (win w)) as [c|]; simpl in *; [|contradiction].
    destruct (300 <? _)%Z eqn:E; simpl in *; [|contradiction].
    injection Hafter as <-. apply Z.ltb_lt in E. exact E.
Qed.

(** Short of a new [loadROM], a bound real surface is never unbound. *)
Lemma bound_step w e :
  ejsCanvas (bridge w) <> None -> is_load e = false -> ejsCanvas (bridge (step w e)) <> None.
Proof.
  intros Hb He.
  destruct e as [| t0 t1 | | now | | n | | h' cw ch |]; try discriminate;
    try (match goal with |- context [step ?w ?e] =>
           pose proof (sched_step_bview w e eq_refl) as Hv end;
         unfold bview in Hv; congruence);
    try exact Hb.
  - simpl. unfold resizeCanvas. destruct (decide _); [exact Hb|].
    destruct (canvases (win w) !! h') as [old|]; [|exact Hb]. unfold notify.
    set (w1 := with_win _ w).
    destruct (notify_fold_spec h' (observers (win w1)) w1) as (_ & _ & _ & _ & He').
    destruct He' as [-> | [-> _]]; [exact Hb | discriminate].
  - simpl. unfold gameStart, onGameStart.
    destruct (EJS_onGameStart (win w)); [|exact Hb]. simpl.
    destruct (EJS_emulator_canvas (win w)) as [c|]; simpl; [|exact Hb].
    destruct (300 <? _)%Z; simpl; [discriminate | exact Hb].
Qed.

Lemma bound_run evs w :
  ejsCanvas (bridge w) <> None -> forallb (fun e => negb (is_load e)) evs = true ->
  ejsCanvas (bridge (run evs w)) <> None.
Proof.
  revert w. induction evs as [|e evs IH]; intros w Hb Hall; simpl in *; [exact Hb|].
  apply andb_true_iff in Hall as [He Hall]. apply negb_true_iff in He.
  apply IH; [|exact Hall]. now apply bound_step.
Qed.

Lemma settled_bview h w w' : bview w' = bview w -> settled h w -> settled h w'.
Proof. unfold bview, settled. intros [= -> _ _ -> _ -> _ _]. auto. Qed.

Lemma notify_fold_settled h h' (os : list Observer) w :
  settled h w -> Forall (fun o => target o = h) os ->
  settled h (fold_left (fun w o => if decide (target o = h') then observer_callback o w else w) os w).
Proof.
  revert w. induction os as [|o os IH]; intros w Hs Hos; simpl; [exact Hs|].
  apply Forall_cons in Hos as [Ho Hos].
  apply IH; [|exact Hos].
  destruct (decide (target o = h')); [|exact Hs].
  destruct (observer_callback_cases o w) as [[_ ->] | [_ ->]]; [exact Hs|].
  destruct Hs as (_ & Hem & Hobs). unfold settled. simpl. rewrite Ho.
  split; [reflexivity | split; [exact Hem|]].
  apply Forall_forall. intros o' Hin. apply list_elem_of_filter in Hin as [_ Hin].
  rewrite Forall_forall in Hobs. now apply Hobs.
Qed.

Lemma settled_step h w e : settled h w -> keeps_source e = true -> settled h (step w e).
Proof.
  intros Hs He.
  destruct e as [| t0 t1 | | now | | n | | h' cw ch |]; try discriminate;
    try (apply (settled_bview h w); [now apply sched_step_bview | exact Hs]).
  - exact Hs.
  - exact Hs.
  - simpl. unfold resizeCanvas. destruct (decide _); [exact Hs|].
    destruct (canvases (win w) !! h'); [|exact Hs].
    apply notify_fold_settled; [exact Hs|]. apply Hs.
  - simpl. unfold gameStart, onGameStart.
    destruct (EJS_onGameStart (win w)); [|exact Hs]. simpl.
    destruct Hs as (Hej & Hem & Hobs). rewrite Hem. simpl.
    destruct (300 <? _)%Z; unfold settled; simpl; repeat split; auto.
    apply Forall_app. split; [exact Hobs|]. now apply Forall_singleton.
Qed.

Lemma settled_run h evs w :
  settled h w -> forallb keeps_source evs = true -> settled h (run evs w).
Proof.
  revert w. induction evs as [|e evs IH]; intros w Hs Hall; simpl in *; [exact Hs|].
  apply andb_true_iff in Hall as [He Hall]. apply IH; [|exact Hall]. now apply settled_step.
Qed.

(** C2, as stated, fails: once the real surface (384 wide) is served, a
    second [loadROM] makes [outputCanvas] return the placeholder again,
    although the real surface is still 384 wide. *)
Lemma reload_serves_placeholder_again :
  outputCanvas (bridge (run [EvLoadROM; EvEmuCanvas; EvResize 1 384 224; EvGameStart] boot))
    = 1%nat /\
  outputCanvas (bridge (run [EvLoadROM; EvEmuCanvas; EvResize 1 384 224; EvGameStart; EvLoadROM] boot))
    = placeholderCanvas (bridge boot) /\
  width (canvas_of (run [EvLoadROM; EvEmuCanvas; EvResize 1 384 224; EvGameStart; EvLoadROM] boot) 1)
    = 384%Z.
Proof. vm_compute. auto. Qed.

(** *** What binds the real surface, and what does not *)

(** The callbacks of the observers of [h], once [h] reports a width above
    300: the first of them binds [h], the later ones bind it again. *)
Lemma notify_fold_binds h (os : list Observer) w :
  (300 < width (canvas_of w h))%Z ->
  ejsCanvas (bridge w) = Some h \/ (exists o, o ∈ os /\ target o = h) ->
  ejsCanvas (bridge (fold_left
    (fun w o => if decide (target o = h) then observer_callback o w else w) os w)) = Some h.
Proof.
  revert w. induction os as [|o os IH]; intros w Hw Hcase; cbn [fold_left].
  - destruct Hcase as [He | (o & Hin & _)]; [exact He | inversion Hin].
  - destruct (decide (target o = h)) as [Heq | Hne].
    + unfold observer_callback. rewrite Heq.
      assert ((300 <? width (canvas_of w h))%Z = true) as -> by now apply Z.ltb_lt.
      apply IH; [exact Hw | left; reflexivity].
    + apply IH; [exact Hw|].
      destruct Hcase as [He | (o' & Hin & Ht)]; [now left | right].
      exists o'. split; [|exact Ht].
      apply elem_of_cons in Hin as [-> | Hin]; [contradiction | exact Hin].
Qed.

(** The callbacks do nothing when no observer watches [h], or when [h]
    still reports a width of at most 300. *)
Lemma notify_fold_idle h (os : list Observer) w :
  (forall o, o ∈ os -> target o <> h) \/ (width (canvas_of w h) <= 300)%Z ->
  fold_left (fun w o => if decide (target o = h) then observer_callback o w else w) os w = w.
Proof.
  induction os as [|o os IH]; intros Hcase; cbn [fold_left]; [reflexivity|].
  destruct (decide (target o = h)) as [Heq | Hne].
  - destruct Hcase as [Hno | Hle].
    + exfalso. apply (Hno o); [left | exact Heq].
    + unfold observer_callback. rewrite Heq.
      assert ((300 <? width (canvas_of w h))%Z = false) as -> by now apply Z.ltb_ge.
      apply IH. now right.
  - apply IH. destruct Hcase as [Hno | Hle]; [left | now right].
    intros o' Hin. apply Hno. now right.
Qed.

Lemma resize_binds (o : Observer) (cw ch : Z) (w : World) :
  bridge_inv w -> o ∈ observers (win w) -> (300 < canvas_dimension 300 cw)%Z ->
  ejsCanvas (bridge (resizeCanvas (target o) cw ch w)) = Some (target o).
Proof.
  intros (_ & _ & _ & Hobs & _) Hin Hcw.
  rewrite Forall_forall in Hobs. destruct (Hobs o Hin) as [Hne [old Hl]].
  unfold resizeCanvas. rewrite decide_False by exact Hne. rewrite Hl. unfold notify.
  apply notify_fold_binds.
  - unfold canvas_of. simpl. now rewrite lookup_insert_eq.
  - right. exists o. split; [exact Hin | reflexivity].
Qed.

Lemma resize_keeps (h : Handle) (cw ch : Z) (w : World) :
  (forall o, o ∈ observers (win w) -> target o <> h) \/ (canvas_dimension 300 cw <= 300)%Z ->
  bridge (resizeCanvas h cw ch w) = bridge w.
Proof.
  intros Hcase. unfold resizeCanvas. destruct (decide _); [reflexivity|].
  destruct (canvases (win w) !! h) as [old|] eqn:Hl; [|reflexivity]. unfold notify.
  rewrite notify_fold_idle; [reflexivity|].
  destruct Hcase as [Hno | Hle]; [left; exact Hno | right].
  unfold canvas_of. simpl. now rewrite lookup_insert_eq.
Qed.

Lemma gameStart_binds (n : nat) (c : Handle) (w : World) :
  EJS_onGameStart (win w) = Some n -> EJS_emulator_canvas (win w) = Some c ->
  ((300 < width (canvas_of w c))%Z -> ejsCanvas (bridge (gameStart w)) = Some c) /\
  ((width (canvas_of w c) <= 300)%Z ->
     bridge (gameStart w) = bridge w /\
     exists o, o ∈ observers (win (gameStart w)) /\ target o = c).
Proof.
  intros Hg Hc. unfold gameStart, onGameStart. rewrite Hg. cbv zeta.
  change (EJS_emulator_canvas (win (log LogGameStartFired w))) with (EJS_emulator_canvas (win w)).
  rewrite Hc.
  change (canvas_of (log LogGameStartFired w) c) with (canvas_of w c).
  split; intros Hw.
  - assert ((300 <? width (canvas_of w c))%Z = true) as -> by now apply Z.ltb_lt.
    reflexivity.
  - assert ((300 <? width (canvas_of w c))%Z = false) as -> by now apply Z.ltb_ge.
    split; [reflexivity|].
    exists {| oid := nextObserver (win w); target := c; load := n |}.
    split; [|reflexivity]. simpl. apply elem_of_app. right. left.
Qed.

Lemma quiet_step_bridge w e : rebinds_surface e = false -> bridge (step w e) = bridge w.
Proof.
  intros He. destruct e as [| t0 t1 | | now | | n | | h cw ch |]; try discriminate;
    try reflexivity.
  - exact (sched_step_bridge w (EvStart t0 t1) eq_refl).
  - exact (sched_step_bridge w EvStop eq_refl).
  - exact (sched_step_bridge w (EvFrame now) eq_refl).
Qed.

(** Before EmulatorJS announces a game no observer is connected and no
    real surface is bound, whatever is resized. *)
Lemma before_game_start_step w e :
  is_game_start e = false ->
  observers (win w) = [] /\ ejsCanvas (bridge w) = None ->
  observers (win (step w e)) = [] /\ ejsCanvas (bridge (step w e)) = None.
Proof.
  intros He [Ho Hb].
  destruct e as [| t0 t1 | | now | | n | | h cw ch |]; try discriminate;
    try (match goal with |- context [step ?w ?e] =>
           pose proof (sched_step_bview w e eq_refl) as Hv end;
         unfold bview in Hv; split; congruence);
    try (split; [exact Ho | exact Hb]).
  - split; [exact Ho | reflexivity].
  - simpl. unfold resizeCanvas. destruct (decide _); [auto|].
    destruct (canvases (win w) !! h); [|auto]. unfold notify.
    change (observers (win (with_win _ w))) with (observers (win w)). rewrite Ho.
    cbn [fold_left]. auto.
Qed.

Lemma before_game_start_run evs w :
  forallb (fun e => negb (is_game_start e)) evs = true ->
  observers (win w) = [] /\ ejsCanvas (bridge w) = None ->
  observers (win (run evs w)) = [] /\ ejsCanvas (bridge (run evs w)) = None.
Proof.
  revert w. induction evs as [|e evs IH]; intros w Hall Hw; [exact Hw|].
  simpl in Hall. apply andb_true_iff in Hall as [He Hall]. apply negb_true_iff in He.
  change (run (e :: evs) w) with (run evs (step w e)).
  apply IH; [exact Hall | now apply before_game_start_step].
Qed.

(** C2, amended: in every reachable world [outputCanvas] returns a canvas
    element that exists; from construction, and whenever no real surface
    is bound, it is the placeholder, which is 384 x 224; an event that
    switches it to another surface than the placeholder finds that surface
    wider than 300; once a real surface is served, no later read returns
    the placeholder until [loadROM] is called again; and as long as
    EmulatorJS keeps presenting the same canvas, that canvas is the one
    served. The switch itself: a game start binds the canvas EmulatorJS
    presents if it reports a width above 300, and otherwise leaves the
    served surface alone and connects an observer; a resize of an observed
    canvas to a reported width above 300 binds it; a resize of a canvas no
    observer watches, or to a width of at most 300, changes nothing;
    [loadROM] brings the placeholder back; no other event changes the
    surface served; and as long as EmulatorJS has not announced a game, no
    observer is connected and the placeholder is served, whatever has
    been resized. *)
Theorem outputCanvas_lifecycle (evs : list Event) :
  let w := run evs boot in
  outputCanvas (bridge boot) = placeholderCanvas (bridge boot) /\
  is_Some (canvases (win w) !! outputCanvas (bridge w)) /\
  canvases (win w) !! placeholderCanvas (bridge w) = Some {| width := 384; height := 224 |} /\
  (ejsCanvas (bridge w) = None -> outputCanvas (bridge w) = placeholderCanvas (bridge w)) /\
  (forall e,
     outputCanvas (bridge (step w e)) <> outputCanvas (bridge w) ->
     outputCanvas (bridge (step w e)) <> placeholderCanvas (bridge (step w e)) ->
     (300 < width (canvas_of (step w e) (outputCanvas (bridge (step w e)))))%Z) /\
  (forall evs', ejsCanvas (bridge w) <> None ->
     forallb (fun e => negb (is_load e)) evs' = true ->
     outputCanvas (bridge (run evs' w)) <> placeholderCanvas (bridge (run evs' w))) /\
  (forall h evs', settled h w -> forallb keeps_source evs' = true ->
     outputCanvas (bridge (run evs' w)) = h) /\
  (forall c, EJS_onGameStart (win w) <> None -> EJS_emulator_canvas (win w) = Some c ->
     ((300 < width (canvas_of w c))%Z -> outputCanvas (bridge (step w EvGameStart)) = c) /\
     ((width (canvas_of w c) <= 300)%Z ->
        outputCanvas (bridge (step w EvGameStart)) = outputCanvas (bridge w) /\
        exists o, o ∈ observers (win (step w EvGameStart)) /\ target o = c)) /\
  (forall o cw ch, o ∈ observers (win w) -> (300 < canvas_dimension 300 cw)%Z ->
     outputCanvas (bridge (step w (EvResize (target o) cw ch))) = target o) /\
  (forall h cw ch,
     (forall o, o ∈ observers (win w) -> target o <> h) \/ (canvas_dimension 300 cw <= 300)%Z ->
     outputCanvas (bridge (step w (EvResize h cw ch))) = outputCanvas (bridge w)) /\
  outputCanvas (bridge (step w EvLoadROM)) = placeholderCanvas (bridge w) /\
  (forall e, rebinds_surface e = false ->
     outputCanvas (bridge (step w e)) = outputCanvas (bridge w)) /\
  (forallb (fun e => negb (is_game_start e)) evs = true ->
     observers (win w) = [] /\ outputCanvas (bridge w) = placeholderCanvas (bridge w)).
Proof.
  intros w.
  assert (Hi : bridge_inv w) by (apply reachable_bridge_inv; now exists evs).
  pose proof Hi as (I1 & I2 & I3 & I4 & I5).
  split; [reflexivity|].
  split; [|split; [exact I1 | split; [|split; [|split; [|split; [|split;
    [|split; [|split; [|split; [|split]]]]]]]]]].
  - unfold outputCanvas. destruct (ejsCanvas (bridge w)) as [h|] eqn:He.
    + now apply I5.
    + rewrite I1. eauto.
  - intros He. unfold outputCanvas. now rewrite He.
  - intros e Hne Hnp. unfold outputCanvas in *.
    destruct (ejsCanvas (bridge (step w e))) as [h|] eqn:He; [|contradiction].
    apply (switch_past_threshold w e h He).
    intros Hb. rewrite Hb in Hne. contradiction.
  - intros evs' Hb Hall. pose proof (bound_run evs' w Hb Hall) as Hb'.
    assert (Hi' : bridge_inv (run evs' w)).
    { apply reachable_bridge_inv. exists (evs ++ evs'). subst w. now rewrite run_app. }
    destruct Hi' as (_ & _ & _ & _ & I5'). unfold outputCanvas.
    destruct (ejsCanvas (bridge (run evs' w))) as [h|]; [|contradiction].
    now apply I5'.
  - intros h evs' Hs Hall. destruct (settled_run h evs' w Hs Hall) as (He & _).
    unfold outputCanvas. now rewrite He.
  - intros c Hg Hc. destruct (EJS_onGameStart (win w)) as [n|] eqn:Hn; [|contradiction].
    destruct (gameStart_binds n c w Hn Hc) as [Hwide Hnarrow].
    split; intros Hw; simpl.
    + unfold outputCanvas. now rewrite (Hwide Hw).
    + destruct (Hnarrow Hw) as [-> Hex]. split; [reflexivity | exact Hex].
  - intros o cw ch Hin Hcw. simpl. unfold outputCanvas.
    now rewrite (resize_binds o cw ch w Hi Hin Hcw).
  - intros h cw ch Hcase. simpl. now rewrite (resize_keeps h cw ch w Hcase).
  - reflexivity.
  - intros e He. now rewrite (quiet_step_bridge w e He).
  - intros Hall.
    destruct (before_game_start_run evs boot Hall) as [Ho Hb]; [split; reflexivity|].
    fold w in Ho, Hb. split; [exact Ho|]. unfold outputCanvas. now rewrite Hb.
Qed.

Lemma outputCanvas_lifecycle_witness :
  {| oid := 0; target := 1; load := 0 |} ∈ observers (win (run [EvLoadROM; EvEmuCanvas; EvGameStart] boot)) /\
  (300 < canvas_dimension 300 384)%Z /\
  outputCanvas (bridge (step (run [EvLoadROM; EvEmuCanvas; EvGameStart] boot)
                             (EvResize 1 384 224))) = 1.
Proof.
  assert (Hobs : observers (win (run [EvLoadROM; EvEmuCanvas; EvGameStart] boot))
                 = [{| oid := 0; target := 1; load := 0 |}]) by reflexivity.
  assert (Hin : {| oid := 0; target := 1; load := 0 |}
                  ∈ observers (win (run [EvLoadROM; EvEmuCanvas; EvGameStart] boot))).
  { rewrite Hobs. left. }
  assert (Hcw : (300 < canvas_dimension 300 384)%Z) by reflexivity.
  split; [exact Hin | split; [exact Hcw|]].
  exact (proj1 (proj2 (proj2 (proj2 (proj2 (proj2 (proj2 (proj2 (proj2
    (outputCanvas_lifecycle [EvLoadROM; EvEmuCanvas; EvGameStart])))))))))
    {| oid := 0; target := 1; load := 0 |} 384%Z 224%Z Hin Hcw).
Defined.

(** ** The deferred binding, end to end *)

Lemma sched_run_bview evs w : forallb is_sched evs = true -> bview (run evs w) = bview w.
Proof.
  revert w. induction evs as [|e evs IH]; intros w Hall; simpl in *; [reflexivity|].
  apply andb_true_iff in Hall as [He Hall]. rewrite IH by exact Hall.
  now apply sched_step_bview.
Qed.

Lemma frame_when_running now w id :
  rafQueue (win w) = [id] -> frame now w = tick now (with_win (set_rafQueue []) w).
Proof. intros Hq. unfold frame. now rewrite Hq. Qed.

Lemma frame_when_stopped now w :
  rafQueue (win w) = [] -> frame now w = w.
Proof.
  intros Hq. unfold frame. rewrite Hq. simpl.
  destruct w as [b br sc]. destruct b. simpl in *. now subst.
Qed.

(** The world in which EmulatorJS has announced the game on a canvas that
    still reports a width of at most 300. *)
Lemma pending_world_fields (cw0 ch0 : Z) :
  (canvas_dimension 300 cw0 <= 300)%Z ->
  let w := run [EvInit; EvLoadROM; EvEmuCanvas; EvResize 1 cw0 ch0; EvGameStart] boot in
  bridge w = {| placeholderCanvas := 0; ejsCanvas := None; isReady := false |} /\
  canvases (win w) !! 1%nat = Some {| width := canvas_dimension 300 cw0;
                                      height := canvas_dimension 150 ch0 |} /\
  observers (win w) = [{| oid := 0; target := 1; load := 0 |}] /\
  promises (win w) = [Pending] /\
  rebinds w = 0%nat /\
  screenMesh (scene w) = Some (THREE.CanvasTexture 0).
Proof.
  intros Hle w. subst w.
  change (run [EvInit; EvLoadROM; EvEmuCanvas; EvResize 1 cw0 ch0; EvGameStart] boot)
    with (gameStart (resizeCanvas 1 cw0 ch0 (run [EvInit; EvLoadROM; EvEmuCanvas] boot))).
  set (wa := run [EvInit; EvLoadROM; EvEmuCanvas] boot).
  assert (Hl : canvases (win wa) !! 1%nat = Some html_default_canvas) by reflexivity.
  unfold resizeCanvas.
  rewrite decide_False by (vm_compute; discriminate).
  rewrite Hl. unfold notify.
  change (observers (win (with_win _ wa))) with (@nil Observer).
  cbn [fold_left].
  set (wb := with_win _ wa).
  assert (Hw : width (canvas_of (log LogGameStartFired wb) 1) = canvas_dimension 300 cw0).
  { unfold canvas_of. simpl. now rewrite lookup_insert_eq. }
  unfold gameStart.
  change (EJS_onGameStart (win wb)) with (Some 0%nat). cbv beta iota.
  unfold onGameStart. cbv zeta.
  change (EJS_emulator_canvas (win (log LogGameStartFired wb))) with (Some 1%nat).
  cbv beta iota. rewrite Hw.
  assert ((300 <? canvas_dimension 300 cw0)%Z = false) as -> by (apply Z.ltb_ge; exact Hle).
  repeat split.
Qed.

(** What the resize past the threshold does to a world with that one
    observer connected. *)
Lemma resize_fires (o : Observer) (cw ch : Z) (w : World) :
  observers (win w) = [o] ->
  target o <> placeholderCanvas (bridge w) ->
  is_Some (canvases (win w) !! target o) ->
  (300 < canvas_dimension 300 cw)%Z ->
  let w' := resizeCanvas (target o) cw ch w in
  bridge w' = {| placeholderCanvas := placeholderCanvas (bridge w);
                 ejsCanvas := Some (target o); isReady := true |} /\
  scene w' = scene w /\
  rebinds w' = rebinds w /\
  observers (win w') = [] /\
  promises (win w') = settle Resolved (load o) (promises (win w)).
Proof.
  intros Ho Hne [old Hl] Hcw w'. subst w'. unfold resizeCanvas.
  rewrite decide_False by exact Hne. rewrite Hl. unfold notify.
  set (w1 := with_win _ w).
  change (observers (win w1)) with (observers (win w)). rewrite Ho.
  cbn [fold_left]. rewrite decide_True by reflexivity.
  unfold observer_callback.
  assert (Hw : width (canvas_of w1 (target o)) = canvas_dimension 300 cw).
  { unfold canvas_of. simpl. now rewrite lookup_insert_eq. }
  rewrite Hw.
  assert ((300 <? canvas_dimension 300 cw)%Z = true) as -> by (apply Z.ltb_lt; exact Hcw).
  repeat split.
  - unfold rebinds. simpl. rewrite filter_app. simpl. now rewrite List.app_nil_r.
  - simpl. rewrite Ho. now rewrite filter_cons_False by (intros H; now apply H).
Qed.

(** The tick that finds a new surface rebinds the texture once. *)
Lemma tick_rebinds now w tex :
  isReady (bridge w) = true -> screenMesh (scene w) = Some tex ->
  THREE.image tex <> outputCanvas (bridge w) ->
  bound_image (tick now w) = Some (outputCanvas (bridge w)) /\
  rebinds (tick now w) = S (rebinds w) /\
  bview (tick now w) = bview w.
Proof.
  intros Hr Hm Hne. unfold bound_image, rebinds.
  rewrite tick_screenMesh, tick_console, tick_bview, Hr, Hm.
  rewrite !decide_False by exact Hne. simpl.
  rewrite filter_app, length_app. simpl. split; [reflexivity | split; [lia | reflexivity]].
Qed.

Lemma same_source_rebinds w0 w : same_source w0 w -> rebinds w = rebinds w0.
Proof. intros (_ & _ & Hc). unfold rebinds. now rewrite Hc. Qed.

Lemma same_source_bridge w0 w : same_source w0 w -> bridge w = bridge w0.
Proof. intros (Hb & _). unfold bview in Hb. congruence. Qed.

Lemma resize_width (h : Handle) (cw ch : Z) (w : World) :
  h <> placeholderCanvas (bridge w) -> is_Some (canvases (win w) !! h) ->
  width (canvas_of (resizeCanvas h cw ch w) h) = canvas_dimension 300 cw.
Proof.
  intros Hne [old Hl]. unfold resizeCanvas. rewrite decide_False by exact Hne.
  rewrite Hl. unfold notify.
  match goal with |- context [fold_left ?f ?os ?w] =>
    destruct (notify_fold_spec h os w) as (Hd & _) end.
  rewrite (canvas_of_dview _ _ h Hd). unfold canvas_of. simpl.
  now rewrite lookup_insert_eq.
Qed.

(** *** The scheduler after a switch of surface *)

Lemma tick_bridge_eq now w : bridge (tick now w) = bridge w.
Proof. pose proof (tick_bview now w) as H. unfold bview in H. congruence. Qed.

(** A tick after the switch in [w0], whether the first or a later one. *)
Lemma tick_since now w0 w :
  stale w0 -> since w0 w -> bridge (tick now w) = bridge w0 /\ after_tick w0 (tick now w).
Proof.
  intros (Hr & h & Hb0 & Hne) (Hb & Hcase).
  split; [now rewrite tick_bridge_eq|].
  unfold after_tick. rewrite tick_renders.
  destruct Hcase as [(Hn & Hbi & Hrb) | (Hn & Hbi & Hrb)].
  - rewrite Hb0 in Hbi. unfold bound_image in Hbi.
    destruct (screenMesh (scene w)) as [tex|] eqn:Hm; [|discriminate].
    injection Hbi as Hi.
    destruct (tick_rebinds now w tex) as (Hbi' & Hrb' & _).
    + now rewrite Hb.
    + exact Hm.
    + rewrite Hb, Hi. exact Hne.
    + rewrite Hbi', Hrb', Hb, Hrb. split; [lia | auto].
  - assert (Hq : quiet w) by (right; now rewrite Hb).
    destruct (tick_quiet now w Hq) as (_ & Hbi' & Hc').
    unfold rebinds in *. rewrite Hbi', Hc'. split; [lia | auto].
Qed.

Lemma ticks_since now (cbs : list nat) w0 w :
  stale w0 -> since w0 w -> since w0 (fold_left (fun w _ => tick now w) cbs w).
Proof.
  intros Hs. revert w. induction cbs as [|c cbs IH]; intros w Hw; [exact Hw|].
  cbn [fold_left]. apply IH.
  destruct (tick_since now w0 w Hs Hw) as [Hb Ha]. split; [exact Hb | now right].
Qed.

Lemma since_step w0 w e : stale w0 -> is_sched e = true -> since w0 w -> since w0 (step w e).
Proof.
  intros Hs He Hw.
  destruct e as [| t0 t1 | | now | | n | | h cw ch |]; try discriminate; simpl.
  - unfold start. destruct (rafId (scene w)); [exact Hw|].
    destruct (tick_since t1 w0 (with_scene (fun s => set_clock (THREE.Clock_start t0 (clock s)) s) w) Hs)
      as [Hb Ha]; [exact Hw | split; [exact Hb | now right]].
  - unfold stop. destruct (rafId (scene w)); exact Hw.
  - unfold frame. apply ticks_since; [exact Hs | exact Hw].
Qed.

Lemma since_run w0 evs w :
  stale w0 -> forallb is_sched evs = true -> since w0 w -> since w0 (run evs w).
Proof.
  intros Hs. revert w. induction evs as [|e evs IH]; intros w Hall Hw; [exact Hw|].
  simpl in Hall. apply andb_true_iff in Hall as [He Hall].
  change (run (e :: evs) w) with (run evs (step w e)).
  apply IH; [exact Hall | now apply since_step].
Qed.

(** C7: the scene is initialised, a ROM is loaded, and EmulatorJS announces
    the game while its canvas reports a width of at most 300 (the default
    300 x 150, say). Through any starts, stops and frames the bridge stays
    not ready, the placeholder is served and bound, and no rebind is
    logged. When the canvas is then resized to a reported width above 300,
    the bridge serves it while the texture still reads the placeholder.
    The scheduler's next tick does the rebind: with the loop running it is
    the next animation frame, with the loop stopped a frame does nothing
    and it is the tick [start()] runs. Whatever starts, stops and frames
    follow the resize, the texture reads the placeholder and no rebind is
    on record as long as no tick has run, and from the first tick on it
    reads the new canvas and exactly one rebind is on record. *)
Theorem deferred_rebind (cw0 ch0 cw ch : Z) (evs1 evs2 : list Event) :
  (canvas_dimension 300 cw0 <= 300)%Z -> (300 < canvas_dimension 300 cw)%Z ->
  forallb is_sched evs1 = true -> forallb is_sched evs2 = true ->
  let w1 := run ([EvInit; EvLoadROM; EvEmuCanvas; EvResize 1 cw0 ch0; EvGameStart] ++ evs1) boot in
  let w2 := step w1 (EvResize 1 cw ch) in
  let w4 := run evs2 w2 in
  (isReady (bridge w1) = false /\
   outputCanvas (bridge w1) = placeholderCanvas (bridge w1) /\
   bound_image w1 = Some (placeholderCanvas (bridge w1)) /\ rebinds w1 = 0%nat) /\
  (isReady (bridge w2) = true /\ outputCanvas (bridge w2) = 1%nat /\
   width (canvas_of w2 1) = canvas_dimension 300 cw /\
   bound_image w2 = Some (placeholderCanvas (bridge w2)) /\ rebinds w2 = 0%nat) /\
  (forall now, rafId (scene w2) <> None ->
     renders (scene (step w2 (EvFrame now))) = S (renders (scene w2)) /\
     bound_image (step w2 (EvFrame now)) = Some 1%nat /\
     rebinds (step w2 (EvFrame now)) = 1%nat) /\
  (forall t0 t1 now, rafId (scene w2) = None ->
     step w2 (EvFrame now) = w2 /\
     renders (scene (step w2 (EvStart t0 t1))) = S (renders (scene w2)) /\
     bound_image (step w2 (EvStart t0 t1)) = Some 1%nat /\
     rebinds (step w2 (EvStart t0 t1)) = 1%nat) /\
  (renders (scene w4) = renders (scene w2) ->
     bound_image w4 = Some (placeholderCanvas (bridge w4)) /\ rebinds w4 = 0%nat) /\
  (renders (scene w4) <> renders (scene w2) ->
     bound_image w4 = Some 1%nat /\ rebinds w4 = 1%nat).
Proof.
  intros Hle Hgt Hs1 Hs2 w1 w2 w4.
  pose proof (pending_world_fields cw0 ch0 Hle) as (Hb & Hc & Ho & _ & Hr & Hm).
  set (wp := run [EvInit; EvLoadROM; EvEmuCanvas; EvResize 1 cw0 ch0; EvGameStart] boot) in *.
  assert (Hq : quiet wp) by (left; now rewrite Hb).
  assert (Hsame : same_source wp w1).
  { subst w1. rewrite run_app. now apply sched_run_quiet. }
  pose proof (same_source_bridge _ _ Hsame) as Hb1. rewrite Hb in Hb1.
  pose proof (same_source_rebinds _ _ Hsame) as Hr1. rewrite Hr in Hr1.
  destruct Hsame as (Hbv & Hbi & _).
  assert (Hbi1 : bound_image w1 = Some 0%nat).
  { rewrite Hbi. unfold bound_image. now rewrite Hm. }
  assert (Ho1 : observers (win w1) = [{| oid := 0; target := 1; load := 0 |}]).
  { unfold bview in Hbv. congruence. }
  assert (Hc1 : is_Some (canvases (win w1) !! 1%nat)).
  { unfold bview in Hbv. assert (canvases (win w1) = canvases (win wp)) as -> by congruence.
    rewrite Hc. eauto. }
  assert (Hne1 : 1%nat <> placeholderCanvas (bridge w1)) by (rewrite Hb1; simpl; discriminate).
  destruct (resize_fires {| oid := 0; target := 1; load := 0 |} cw ch w1 Ho1 Hne1 Hc1 Hgt)
    as (Hb2 & Hsc2 & Hr2 & _).
  simpl in Hb2, Hsc2, Hr2.
  change (resizeCanvas 1 cw ch w1) with w2 in Hb2, Hsc2, Hr2.
  rewrite Hb1 in Hb2. simpl in Hb2. rewrite Hr1 in Hr2.
  assert (Hbi2 : bound_image w2 = Some 0%nat).
  { unfold bound_image. rewrite Hsc2. exact Hbi1. }
  assert (Hw2 : width (canvas_of w2 1) = canvas_dimension 300 cw).
  { now apply resize_width. }
  assert (Hst : stale w2).
  { split; [now rewrite Hb2|]. exists 0%nat. split; [exact Hbi2|]. now rewrite Hb2. }
  assert (Hout : outputCanvas (bridge w2) = 1%nat) by now rewrite Hb2.
  assert (Hreach : Reachable w2).
  { exists (([EvInit; EvLoadROM; EvEmuCanvas; EvResize 1 cw0 ch0; EvGameStart] ++ evs1)
              ++ [EvResize 1 cw ch]). now rewrite run_snoc. }
  destruct (reachable_sched_inv w2 Hreach) as (Hqueue & _).
  assert (Hnow : since w2 w2) by (split; [reflexivity | left; repeat split]).
  assert (Htick : forall now w, since w2 w -> renders (scene w) = renders (scene w2) ->
            renders (scene (tick now w)) = S (renders (scene w2)) /\
            bound_image (tick now w) = Some 1%nat /\ rebinds (tick now w) = 1%nat).
  { intros now w Hw Hn. destruct (tick_since now w2 w Hst Hw) as (_ & _ & Hbi' & Hrb').
    rewrite tick_renders, Hn, Hbi', Hrb', Hout, Hr2. auto. }
  split; [|split; [|split; [|split; [|split]]]].
  - rewrite Hb1. simpl. auto.
  - rewrite Hb2. simpl. auto.
  - intros now Hid. simpl.
    destruct (rafId (scene w2)) as [id|]; [|contradiction].
    rewrite (frame_when_running now w2 id Hqueue).
    apply Htick; [|reflexivity]. split; [reflexivity | left; repeat split].
  - intros t0 t1 now Hid. simpl. rewrite Hid in Hqueue.
    split; [now apply frame_when_stopped|].
    unfold start. rewrite Hid.
    apply Htick; [|reflexivity]. split; [reflexivity | left; repeat split].
  - intros Hn. destruct (since_run w2 evs2 w2 Hst Hs2 Hnow) as (Hb4 & [(_ & Hbi4 & Hr4) | (Hlt & _)]).
    + fold w4 in Hb4, Hbi4, Hr4. rewrite Hbi4, Hr4, Hbi2, Hb4, Hb2. simpl. auto.
    + fold w4 in Hlt. lia.
  - intros Hn. destruct (since_run w2 evs2 w2 Hst Hs2 Hnow) as (_ & [(Heq & _) | (_ & Hbi4 & Hr4)]).
    + fold w4 in Heq. contradiction.
    + fold w4 in Hbi4, Hr4. rewrite Hbi4, Hr4, Hout, Hr2. auto.
Qed.

Lemma deferred_rebind_witness :
  (canvas_dimension 300 300 <= 300)%Z /\ (300 < canvas_dimension 300 384)%Z /\
  rafId (scene (step (run ([EvInit; EvLoadROM; EvEmuCanvas; EvResize 1 300 150; EvGameStart]
                            ++ [EvStart 0 0; EvFrame 16]) boot) (EvResize 1 384 224))) <> None /\
  rebinds (step (step (run ([EvInit; EvLoadROM; EvEmuCanvas; EvResize 1 300 150; EvGameStart]
                            ++ [EvStart 0 0; EvFrame 16]) boot) (EvResize 1 384 224))
                (EvFrame 32)) = 1.
Proof.
  assert (H1 : (canvas_dimension 300 300 <= 300)%Z) by (vm_compute; discriminate).
  assert (H2 : (300 < canvas_dimension 300 384)%Z) by reflexivity.
  assert (Hid : rafId (scene (step (run ([EvInit; EvLoadROM; EvEmuCanvas; EvResize 1 300 150;
                                          EvGameStart] ++ [EvStart 0 0; EvFrame 16]) boot)
                                   (EvResize 1 384 224))) <> None)
    by (vm_compute; discriminate).
  split; [exact H1 | split; [exact H2 | split; [exact Hid|]]].
  exact (proj2 (proj2 (proj1 (proj2 (proj2
    (deferred_rebind 300 150 384 224 [EvStart 0 0; EvFrame 16] [EvFrame 48; EvFrame 64]
       H1 H2 eq_refl eq_refl))) 32%Q Hid))).
Defined.

(** ** Game start without a canvas *)

Lemma settle_new (ps : list Promise) :
  settle Resolved (length ps) (ps ++ [Pending]) !! length ps = Some Resolved.
Proof.
  unfold settle.
  assert (Hl : (ps ++ [Pending]) !! length ps = Some Pending).
  { rewrite lookup_app_r by lia. now rewrite Nat.sub_diag. }
  rewrite Hl. apply list_lookup_insert_eq. rewrite length_app. simpl. lia.
Qed.

(** C10: when [EJS_onGameStart] fires and EmulatorJS presents no canvas,
    the promise of that [loadROM] is resolved and [isReady] is true, while
    no real surface is bound; through the ticks that follow, [isReady]
    stays true and [outputCanvas] keeps returning the 384 x 224
    placeholder. *)
Theorem game_start_without_canvas (evs evs' : list Event) :
  let w0 := run evs boot in
  let w := gameStart (loadROM w0) in
  let w' := run evs' w in
  EJS_emulator_canvas (win w0) = None ->
  forallb is_sched evs' = true ->
  (isReady (bridge w) = true /\
   promises (win w) !! length (promises (win w0)) = Some Resolved /\
   ejsCanvas (bridge w) = None) /\
  (isReady (bridge w') = true /\
   outputCanvas (bridge w') = placeholderCanvas (bridge w') /\
   canvases (win w') !! outputCanvas (bridge w') = Some {| width := 384; height := 224 |}).
Proof.
  intros w0 w w' Hnone Hs.
  assert (Hw : isReady (bridge w) = true /\
               promises (win w) !! length (promises (win w0)) = Some Resolved /\
               ejsCanvas (bridge w) = None).
  { subst w. unfold gameStart, loadROM, onGameStart. simpl. rewrite Hnone. simpl.
    repeat split. apply settle_new. }
  split; [exact Hw|]. destruct Hw as (Hr & _ & He).
  assert (Hb : bridge w' = bridge w).
  { pose proof (sched_run_bview evs' w Hs) as Hbv. fold w' in Hbv.
    unfold bview in Hbv. congruence. }
  assert (Hi : bridge_inv w').
  { apply reachable_bridge_inv. exists (evs ++ [EvLoadROM; EvGameStart] ++ evs').
    subst w' w w0. now rewrite !run_app. }
  destruct Hi as (I1 & _).
  unfold outputCanvas. rewrite Hb, He, Hr. rewrite Hb in I1. auto.
Qed.

Lemma game_start_without_canvas_witness :
  EJS_emulator_canvas (win (run [EvInit] boot)) = None /\
  isReady (bridge (gameStart (loadROM (run [EvInit] boot)))) = true /\
  outputCanvas (bridge (run [EvStart 0 0; EvFrame 16] (gameStart (loadROM (run [EvInit] boot)))))
    = placeholderCanvas (bridge (run [EvStart 0 0; EvFrame 16]
        (gameStart (loadROM (run [EvInit] boot))))).
Proof.
  assert (Hn : EJS_emulator_canvas (win (run [EvInit] boot)) = None) by reflexivity.
  split; [exact Hn|].
  pose proof (game_start_without_canvas [EvInit] [EvStart 0 0; EvFrame 16] Hn eq_refl) as H.
  exact (conj (proj1 (proj1 H)) (proj1 (proj2 (proj2 H)))).
Defined.

(* ===================================================================== *)
(** * More properties of the fragment program *)
(* ===================================================================== *)

Module ShaderMore.
Import CRTShader ShaderFacts.
Local Open Scope R_scope.

Lemma vignette_base_range (uv : vec2) :
  clipped uv = false -> 0 <= vx (vigUv uv) * vy (vigUv uv) * 15 <= 15 / 16.
Proof.
  intros Hc. apply clipped_false in Hc. destruct uv as [x y]. simpl in *.
  destruct Hc as [Hx Hy].
  assert (0 <= x * (1 - x) <= 1 / 4).
  { pose proof (Rle_0_sqr (x - 1 / 2)) as Hsq. unfold Rsqr in Hsq. split; nra. }
  assert (0 <= y * (1 - y) <= 1 / 4).
  { pose proof (Rle_0_sqr (y - 1 / 2)) as Hsq. unfold Rsqr in Hsq. split; nra. }
  replace (x * (1 - y) * (y * (1 - x)) * 15) with ((x * (1 - x)) * (y * (1 - y)) * 15) by ring.
  split; nra.
Qed.

Lemma vignette_base_zero (uv : vec2) :
  clipped uv = false -> (vx (vigUv uv) * vy (vigUv uv) * 15 = 0 <-> on_border uv).
Proof.
  intros Hc. apply clipped_false in Hc. destruct uv as [x y]. unfold on_border. simpl in *.
  split.
  - intros H. assert (H' : x * (1 - y) * (y * (1 - x)) = 0) by lra.
    apply Rmult_integral in H' as [H' | H']; apply Rmult_integral in H' as [H' | H']; lra.
  - intros [-> | [-> | [-> | ->]]]; ring.
Qed.



Lemma vignette_defined (uv : vec2) (s : R) :
  clipped uv = false ->
  (vignette uv s = None <-> on_border uv /\ s <= 0).
Proof.
  intros Hc. pose proof (vignette_base_range uv Hc) as [Hb0 Hb1].
  rewrite <- (vignette_base_zero uv Hc).
  unfold vignette, glsl_pow.
  destruct (Rlt_dec 0 _) as [Hpos|Hnpos].
  - split; [discriminate | intros [H _]; lra].
  - destruct (Rlt_dec _ 0); [lra|]. destruct (Rlt_dec 0 s).
    + split; [discriminate | intros [_ H]; lra].
    + split; [intros _; split; lra | reflexivity].
Qed.

(** The centre of the image is never clipped and its vignette is defined. *)
Lemma main_centre_defined (u : Uniforms) (tex : sampler2D) :
  exists c, main u tex (V2 0.5 0.5) = Some c.
Proof.
  set (uv := barrelDistort (V2 0.5 0.5) (uBarrelStrength u * 0.3)).
  assert (Hx : vx uv = 0.5) by (unfold uv, barrelDistort, dot2; simpl; lra).
  assert (Hy : vy uv = 0.5) by (unfold uv, barrelDistort, dot2; simpl; lra).
  assert (Hc : clipped uv = false) by (apply clipped_false; rewrite Hx, Hy; lra).
  rewrite (main_unclipped u tex (V2 0.5 0.5) Hc). fold uv.
  destruct (vignette uv (uVignetteStrength u)) as [v|] eqn:Hv; [eauto|].
  apply (vignette_defined uv _ Hc) in Hv as [Hb _].
  unfold on_border in Hb. rewrite Hx, Hy in Hb. lra.
Qed.

(** X1: whatever [main] writes is opaque: the alpha of [gl_FragColor] is 1,
    and the alpha channel of the source texture has no influence on the
    result. *)
Theorem main_alpha_opaque (u : Uniforms) (tex tex' : sampler2D) (vUv : vec2) (c : vec4) :
  (forall p, rgb (tex p) = rgb (tex' p)) ->
  main u tex vUv = Some c ->
  ca c = 1 /\ main u tex' vUv = Some c.
Proof.
  intros Hrgb Hm. unfold main in *.
  destruct (clipped _) eqn:Hc.
  - injection Hm as <-. split; reflexivity.
  - rewrite scanline_sqrt in *. 
    assert (Hs : sampleChromatic tex' (barrelDistort vUv (uBarrelStrength u * 0.3)) (uChromaticAberration u)
               = sampleChromatic tex (barrelDistort vUv (uBarrelStrength u * 0.3)) (uChromaticAberration u)).
    { unfold sampleChromatic, texture2D.
      f_equal; match goal with |- _ (tex' ?p) = _ => pose proof (Hrgb p) as H; unfold rgb in H; congruence end. }
    rewrite Hs. split; [|exact Hm].
    destruct (vignette _ _); [|discriminate]. injection Hm as <-. reflexivity.
Qed.


Lemma main_alpha_opaque_witness :
  exists c, main default_uniforms grey_texture (V2 0.5 0.5) = Some c /\ ca c = 1 /\
            main default_uniforms (fun _ => V4 0.5 0.5 0.5 0) (V2 0.5 0.5) = Some c.
Proof.
  destruct (main_centre_defined default_uniforms grey_texture) as [c Hc].
  exists c. split; [exact Hc|].
  exact (main_alpha_opaque default_uniforms grey_texture (fun _ => V4 0.5 0.5 0.5 0)
           (V2 0.5 0.5) c (fun _ => eq_refl) Hc).
Defined.

(** X2: with [scanlineIntensity = 0] the output does not depend on the
    resolution uniform: the scanline stage multiplies by 1 at every row. *)
Theorem scanline_intensity_zero (u : Uniforms) (tex : sampler2D) (vUv : vec2) (res : vec2) :
  uScanlineIntensity u = 0 ->
  main (set_uResolution res u) tex vUv = main u tex vUv.
Proof.
  intros Hk. unfold main. simpl. rewrite Hk.
  destruct (clipped _); [reflexivity|].
  rewrite !scanline_sqrt.
  assert (Hmix : forall s, mix 1 s 0 = 1) by (intros s0; unfold mix; ring).
  now rewrite !Hmix.
Qed.

Lemma scanline_intensity_zero_witness :
  main (set_uResolution (V2 800 600)
          {| uResolution := V2 0 0; uTime := 0; uScanlineIntensity := 0;
             uBarrelStrength := 0.15; uChromaticAberration := 0.003;
             uVignetteStrength := 0.4; uBrightness := 1.1 |}) grey_texture (V2 0.25 0.75)
  = main {| uResolution := V2 0 0; uTime := 0; uScanlineIntensity := 0;
            uBarrelStrength := 0.15; uChromaticAberration := 0.003;
            uVignetteStrength := 0.4; uBrightness := 1.1 |} grey_texture (V2 0.25 0.75).
Proof.
  exact (scanline_intensity_zero
           {| uResolution := V2 0 0; uTime := 0; uScanlineIntensity := 0;
              uBarrelStrength := 0.15; uChromaticAberration := 0.003;
              uVignetteStrength := 0.4; uBrightness := 1.1 |}
           grey_texture (V2 0.25 0.75) (V2 800 600) eq_refl).
Defined.



(** X4: [barrelDistort] leaves the centre where it is and commutes with the
    point reflection through the centre; with a non-negative strength it
    never moves a coordinate towards the centre, so a coordinate outside
    the unit square stays outside. *)
Theorem barrel_radial (uv : vec2) (k : R) :
  let uv' := barrelDistort uv k in
  barrelDistort (V2 0.5 0.5) k = V2 0.5 0.5 /\
  barrelDistort (V2 (1 - vx uv) (1 - vy uv)) k = V2 (1 - vx uv') (1 - vy uv') /\
  (0 <= k -> Rabs (vx uv - 0.5) <= Rabs (vx uv' - 0.5) /\ Rabs (vy uv - 0.5) <= Rabs (vy uv' - 0.5)) /\
  (0 <= k -> clipped uv = true -> clipped uv' = true).
Proof.
  intros uv'. subst uv'. destruct uv as [x y]. unfold barrelDistort, dot2. simpl.
  set (d := (x - 0.5) * (x - 0.5) + (y - 0.5) * (y - 0.5)).
  assert (Hd : 0 <= d).
  { pose proof (Rle_0_sqr (x - 0.5)) as Hx. pose proof (Rle_0_sqr (y - 0.5)) as Hy.
    unfold Rsqr in *. unfold d. lra. }
  split; [f_equal; lra | split; [f_equal; unfold d; lra |]].
  assert (Hout : 0 <= k -> forall z, Rabs (z - 0.5) <= Rabs (z + (z - 0.5) * d * k - 0.5)).
  { intros Hk z. replace (z + (z - 0.5) * d * k - 0.5) with ((z - 0.5) * (1 + d * k)) by lra.
    rewrite Rabs_mult. assert (0 <= d * k) by (apply Rmult_le_pos; assumption).
    rewrite (Rabs_right (1 + d * k)) by lra. pose proof (Rabs_pos (z - 0.5)). nra. }
  split; [intros Hk; split; apply Hout; exact Hk|].
  intros Hk Hc. apply clipped_true in Hc. apply clipped_true. simpl in *.
  assert (Hdk : 0 <= d * k) by (apply Rmult_le_pos; assumption).
  destruct Hc as [H | [H | [H | H]]].
  - left. assert ((x - 0.5) * (d * k) <= 0) by nra. lra.
  - right; left. assert (0 <= (x - 0.5) * (d * k)) by nra. lra.
  - right; right; left. assert ((y - 0.5) * (d * k) <= 0) by nra. lra.
  - right; right; right. assert (0 <= (y - 0.5) * (d * k)) by nra. lra.
Qed.

Lemma barrel_radial_witness :
  0 <= 0.3 /\
  Rabs (vx (V2 0.2 0.9) - 0.5) <= Rabs (vx (barrelDistort (V2 0.2 0.9) 0.3) - 0.5).
Proof.
  assert (Hk : 0 <= 0.3) by lra.
  split; [exact Hk|].
  exact (proj1 (proj1 (proj2 (proj2 (barrel_radial (V2 0.2 0.9) 0.3))) Hk)).
Defined.

(** X5: [main] runs into an undefined [pow] exactly on the fragments that
    survive the clip, lie on the edge of the distorted image and are
    drawn with a vignette strength that is not positive; everywhere else it
    writes a colour. *)
Theorem main_defined (u : Uniforms) (tex : sampler2D) (vUv : vec2) :
  let uv := barrelDistort vUv (uBarrelStrength u * 0.3) in
  main u tex vUv = None <->
  clipped uv = false /\ on_border uv /\ uVignetteStrength u <= 0.
Proof.
  intros uv. unfold main. fold uv. destruct (clipped uv) eqn:Hc.
  - split; [discriminate | intros [H _]; discriminate].
  - rewrite scanline_sqrt. pose proof (vignette_defined uv (uVignetteStrength u) Hc) as Hv.
    destruct (vignette uv (uVignetteStrength u)).
    + split; [discriminate|]. intros (_ & Hb & Hs). destruct Hv as [_ Hv].
      specialize (Hv (conj Hb Hs)). discriminate.
    + split; [|reflexivity]. intros _. destruct Hv as [Hv _]. specialize (Hv eq_refl). tauto.
Qed.

Lemma main_defined_witness :
  main {| uResolution := V2 800 600; uTime := 0; uScanlineIntensity := 0.15;
          uBarrelStrength := 0; uChromaticAberration := 0.003;
          uVignetteStrength := 0; uBrightness := 1.1 |} grey_texture (V2 0 0.5) = None.
Proof.
  apply (proj2 (main_defined _ grey_texture (V2 0 0.5))).
  split; [apply clipped_false; unfold barrelDistort, dot2; simpl; lra|].
  split; [left; unfold barrelDistort, dot2; simpl; lra | simpl; lra].
Defined.





(** X7: brightness composes multiplicatively: the output at brightness [b]
    is the output at brightness 1 with its colour channels multiplied by
    [b], alpha untouched. *)
Theorem main_brightness_linear (u : Uniforms) (tex : sampler2D) (vUv : vec2) (b : R) :
  main (set_uBrightness b u) tex vUv =
  option_map (fun c => scale_rgb c b) (main (set_uBrightness 1 u) tex vUv).
Proof.
  unfold main. simpl. destruct (clipped _).
  - simpl. unfold black, scale_rgb. simpl. do 2 f_equal; ring.
  - rewrite !scanline_sqrt. destruct (vignette _ _); [|reflexivity].
    simpl. unfold scale_rgb. simpl. do 2 f_equal; ring.
Qed.

End ShaderMore.

(* ===================================================================== *)
(** * More properties of the scheduler and of the bridge *)
(* ===================================================================== *)

(** ** One tick per animation frame *)

(** X8: in every reachable state at most one animation-frame callback is
    pending; a frame renders exactly once while the loop is scheduled and
    does nothing at all once it is stopped; and a second [start] on top of
    a first changes nothing. *)
Theorem one_tick_per_frame (w : World) (now : Q) :
  Reachable w ->
  length (rafQueue (win w)) <= 1 /\
  renders (scene (frame now w)) =
    (renders (scene w) + match rafId (scene w) with Some _ => 1 | None => 0 end) /\
  (rafId (scene w) = None -> frame now w = w) /\
  (forall t0 t1 t2 t3, start t2 t3 (start t0 t1 w) = start t0 t1 w).
Proof.
  intros Hw. apply reachable_sched_inv in Hw. destruct Hw as (Hq & _ & _).
  split; [|split; [|split]].
  - rewrite Hq. destruct (rafId (scene w)); simpl; lia.
  - destruct (rafId (scene w)) as [id|].
    + rewrite (frame_when_running now w id Hq), tick_renders. simpl. lia.
    + rewrite (frame_when_stopped now w Hq). lia.
  - intros Hid. rewrite Hid in Hq. now apply frame_when_stopped.
  - intros t0 t1 t2 t3. unfold start at 1.
    assert (Hr : rafId (scene (start t0 t1 w)) <> None).
    { unfold start. destruct (rafId (scene w)) eqn:Hid; [congruence|].
      rewrite tick_rafId. discriminate. }
    destruct (rafId (scene (start t0 t1 w))); [reflexivity | contradiction].
Qed.

Lemma one_tick_per_frame_witness :
  Reachable (run [EvInit; EvStart 0 0] boot) /\
  length (rafQueue (win (run [EvInit; EvStart 0 0] boot))) <= 1.
Proof.
  assert (Hw : Reachable (run [EvInit; EvStart 0 0] boot)) by (eexists; reflexivity).
  split; [exact Hw|].
  exact (proj1 (one_tick_per_frame (run [EvInit; EvStart 0 0] boot) 16 Hw)).
Defined.

(** ** Work done per tick *)

Lemma counts_tick now w : counts_agree (scene w) -> counts_agree (scene (tick now w)).
Proof.
  unfold counts_agree. intros [Hp Hc].
  assert (polls (scene (tick now w)) = S (polls (scene w))) as -> by tick_cases.
  assert (controlUpdates (scene (tick now w)) = S (controlUpdates (scene w))) as -> by tick_cases.
  rewrite tick_renders. lia.
Qed.

Lemma counts_ticks now (cbs : list nat) w :
  counts_agree (scene w) -> counts_agree (scene (fold_left (fun w _ => tick now w) cbs w)).
Proof.
  revert w. induction cbs as [|c cbs IH]; intros w H; simpl; [exact H|].
  apply IH. now apply counts_tick.
Qed.

(** X9: the three per-tick jobs never get out of step: in every reachable
    state the input router has been polled and the orbit controls updated
    exactly as many times as a frame has been rendered. *)
Theorem tick_counts_agree (w : World) :
  Reachable w ->
  polls (scene w) = renders (scene w) /\ controlUpdates (scene w) = renders (scene w).
Proof.
  revert w. apply reachable_ind; [split; reflexivity|].
  intros w e _ IH. fold (counts_agree (scene w)) in IH. fold (counts_agree (scene (step w e))).
  destruct e as [| t0 t1 | | now | | n | | h cw ch |]; simpl.
  - exact IH.
  - unfold start. destruct (rafId (scene w)); [exact IH|]. now apply counts_tick.
  - unfold stop. destruct (rafId (scene w)); exact IH.
  - unfold frame. now apply counts_ticks.
  - exact IH.
  - exact IH.
  - exact IH.
  - destruct (resizeCanvas_scene h cw ch w) as [-> _]. exact IH.
  - destruct (gameStart_scene w) as [-> _]. exact IH.
Qed.

Lemma tick_counts_agree_witness :
  Reachable (run [EvInit; EvStart 0 0; EvFrame 16; EvStop; EvFrame 32] boot) /\
  polls (scene (run [EvInit; EvStart 0 0; EvFrame 16; EvStop; EvFrame 32] boot)) =
  renders (scene (run [EvInit; EvStart 0 0; EvFrame 16; EvStop; EvFrame 32] boot)).
Proof.
  assert (Hw : Reachable (run [EvInit; EvStart 0 0; EvFrame 16; EvStop; EvFrame 32] boot))
    by (eexists; reflexivity).
  split; [exact Hw|].
  exact (proj1 (tick_counts_agree _ Hw)).
Defined.

Lemma reachable_step w e : Reachable w -> Reachable (step w e).
Proof. intros [evs ->]. exists (evs ++ [e]). now rewrite run_snoc. Qed.

(** ** Readiness and the promise of [loadROM] *)

Lemma settle_length p n (ps : list Promise) : length (settle p n ps) = length ps.
Proof. unfold settle. destruct (ps !! n) as [[]|]; try reflexivity. apply length_insert. Qed.

Lemma settle_settled p n (ps : list Promise) m q :
  ps !! m = Some q -> q <> Pending -> settle p n ps !! m = Some q.
Proof.
  intros Hm Hq. unfold settle. destruct (ps !! n) as [[]|] eqn:Hn; try exact Hm.
  rewrite list_lookup_insert_ne; [exact Hm|]. intros ->. congruence.
Qed.

Lemma settle_pending p n (ps : list Promise) m :
  ps !! m = Some Pending -> settle p n ps !! m = Some Pending \/ settle p n ps !! m = Some p.
Proof.
  intros Hm. unfold settle. destruct (ps !! n) as [[]|] eqn:Hn; auto.
  destruct (decide (n = m)) as [->|Hne].
  - right. apply list_lookup_insert_eq. now apply lookup_lt_Some in Hm.
  - left. now rewrite list_lookup_insert_ne.
Qed.

(** What the observers' callbacks can do to readiness and to the promises. *)
Lemma notify_fold_ready h (os : list Observer) w :
  let w' := fold_left (fun w o => if decide (target o = h) then observer_callback o w else w) os w in
  (isReady (bridge w) = true -> isReady (bridge w') = true) /\
  (ready_inv w -> ready_inv w') /\
  (promises (win w') = promises (win w) \/ isReady (bridge w') = true) /\
  (forall n p, promises (win w) !! n = Some p -> p <> Pending ->
     promises (win w') !! n = Some p) /\
  length (promises (win w')) = length (promises (win w)).
Proof.
  revert w. induction os as [|o os IH]; intros w; simpl.
  - repeat split; auto.
  - destruct (decide (target o = h)); [|apply IH].
    destruct (observer_callback_cases o w) as [[_ ->] | [_ ->]]; [apply IH|].
    destruct (IH (markReady (target o) (load o) (disconnect o w)))
      as (H1 & H2 & H3 & H4 & H5).
    split; [|split; [|split; [|split]]].
    + intros _. now apply H1.
    + intros _. apply H2. intros _. reflexivity.
    + right. now apply H1.
    + intros n p Hn Hp. apply H4; [|exact Hp]. simpl. now apply settle_settled.
    + rewrite H5. simpl. apply settle_length.
Qed.

Lemma sched_step_promises w e :
  is_sched e = true -> promises (win (step w e)) = promises (win w).
Proof. intros He. pose proof (sched_step_bview w e He) as Hv. unfold bview in Hv. congruence. Qed.

Lemma ready_inv_step w e : ready_inv w -> ready_inv (step w e).
Proof.
  intros Hi.
  destruct e as [| t0 t1 | | now | | n | | h cw ch |];
    try (unfold ready_inv; rewrite sched_step_bridge by reflexivity; exact Hi).
  - exact Hi.
  - intros H. exfalso. apply H. reflexivity.
  - exact Hi.
  - exact Hi.
  - simpl. unfold resizeCanvas. destruct (decide _); [exact Hi|].
    destruct (canvases (win w) !! h); [|exact Hi]. unfold notify.
    set (w1 := with_win _ w).
    destruct (notify_fold_ready h (observers (win w1)) w1) as (_ & H2 & _).
    apply H2. exact Hi.
  - simpl. unfold gameStart, onGameStart.
    destruct (EJS_onGameStart (win w)); [|exact Hi]. simpl.
    destruct (EJS_emulator_canvas (win w)); simpl; [|intros _; reflexivity].
    destruct (300 <? _)%Z; [intros _; reflexivity | exact Hi].
Qed.

Lemma ready_step w e :
  is_load e = false -> isReady (bridge w) = true -> isReady (bridge (step w e)) = true.
Proof.
  intros He Hr.
  destruct e as [| t0 t1 | | now | | n | | h cw ch |]; try discriminate;
    try (rewrite sched_step_bridge by reflexivity; exact Hr);
    try exact Hr.
  - simpl. unfold resizeCanvas. destruct (decide _); [exact Hr|].
    destruct (canvases (win w) !! h); [|exact Hr]. unfold notify.
    set (w1 := with_win _ w).
    destruct (notify_fold_ready h (observers (win w1)) w1) as (H1 & _).
    apply H1. exact Hr.
  - simpl. unfold gameStart, onGameStart.
    destruct (EJS_onGameStart (win w)); [|exact Hr]. simpl.
    destruct (EJS_emulator_canvas (win w)); simpl; [|reflexivity].
    destruct (300 <? _)%Z; [reflexivity | exact Hr].
Qed.

(** X11: the bridge never serves the emulator's canvas without being
    ready; once ready it stays ready under every event other than a new
    [loadROM]; and [loadROM] always clears the flag. *)
Theorem ready_while_served (w : World) (evs : list Event) :
  Reachable w ->
  (ejsCanvas (bridge w) <> None -> isReady (bridge w) = true) /\
  (isReady (bridge w) = true -> forallb (fun e => negb (is_load e)) evs = true ->
   isReady (bridge (run evs w)) = true) /\
  isReady (bridge (loadROM w)) = false.
Proof.
  intros Hw. split; [|split; [|reflexivity]].
  - revert w Hw. apply (reachable_ind ready_inv); [intros H; now contradiction H|].
    intros w e _. apply ready_inv_step.
  - clear Hw. revert w. induction evs as [|e evs IH]; intros w Hr Hall; simpl in *; [exact Hr|].
    apply andb_true_iff in Hall as [He Hall]. apply negb_true_iff in He.
    apply IH; [|exact Hall]. now apply ready_step.
Qed.

Lemma ready_while_served_witness :
  Reachable (run [EvLoadROM; EvEmuCanvas; EvResize 1 384 224; EvGameStart] boot) /\
  isReady (bridge (run [EvScriptError 0; EvFrame 3; EvGameStart]
     (run [EvLoadROM; EvEmuCanvas; EvResize 1 384 224; EvGameStart] boot))) = true.
Proof.
  assert (Hw : Reachable (run [EvLoadROM; EvEmuCanvas; EvResize 1 384 224; EvGameStart] boot))
    by (eexists; reflexivity).
  split; [exact Hw|].
  exact (proj1 (proj2 (ready_while_served _ [EvScriptError 0; EvFrame 3; EvGameStart] Hw))
           eq_refl eq_refl).
Defined.

Lemma promises_unchanged (w w' : World) (n : nat) (p : Promise) :
  promises (win w') = promises (win w) -> promises (win w) !! n = Some p ->
  (p <> Pending -> promises (win w') !! n = Some p) /\
  (p = Pending -> promises (win w') !! n = Some Resolved -> isReady (bridge w') = true) /\
  is_Some (promises (win w') !! n).
Proof. intros -> Hn. rewrite Hn. split; [auto | split; [congruence | eauto]]. Qed.

Lemma settle_resolving (ps : list Promise) (m n : nat) (p : Promise) (r : bool) :
  r = true -> ps !! n = Some p ->
  (p <> Pending -> settle Resolved m ps !! n = Some p) /\
  (p = Pending -> settle Resolved m ps !! n = Some Resolved -> r = true) /\
  is_Some (settle Resolved m ps !! n).
Proof.
  intros Hr Hn. split; [|split].
  - intros Hp. now apply settle_settled.
  - auto.
  - apply lookup_lt_is_Some. rewrite settle_length. now apply lookup_lt_Some in Hn.
Qed.

Lemma promise_step (w : World) (e : Event) (n : nat) (p : Promise) :
  promises (win w) !! n = Some p ->
  (p <> Pending -> promises (win (step w e)) !! n = Some p) /\
  (p = Pending -> promises (win (step w e)) !! n = Some Resolved ->
   isReady (bridge (step w e)) = true) /\
  is_Some (promises (win (step w e)) !! n).
Proof.
  intros Hn.
  destruct e as [| t0 t1 | | now | | m | | h cw ch |];
    try (apply (promises_unchanged w); [now apply sched_step_promises | exact Hn]).
  - apply (promises_unchanged w); [reflexivity | exact Hn].
  - (* loadROM *) simpl.
    assert (Hl : (promises (win w) ++ [Pending]) !! n = Some p).
    { rewrite lookup_app_l; [exact Hn|]. now apply lookup_lt_Some in Hn. }
    rewrite Hl. split; [auto | split; [congruence | eauto]].
  - (* script error *) simpl. split; [|split].
    + intros Hp. now apply settle_settled.
    + intros -> H. destruct (settle_pending Rejected m _ n Hn) as [H' | H']; congruence.
    + apply lookup_lt_is_Some. rewrite settle_length. now apply lookup_lt_Some in Hn.
  - apply (promises_unchanged w); [reflexivity | exact Hn].
  - (* resize *) simpl. unfold resizeCanvas.
    destruct (decide _); [now apply (promises_unchanged w)|].
    destruct (canvases (win w) !! h); [|now apply (promises_unchanged w)]. unfold notify.
    set (w1 := with_win _ w).
    destruct (notify_fold_ready h (observers (win w1)) w1) as (_ & _ & H3 & H4 & H5).
    set (w2 := fold_left _ _ w1) in *.
    split; [|split].
    + intros Hp. now apply H4.
    + intros -> Hres. destruct H3 as [H3 | H3]; [|exact H3].
      rewrite H3 in Hres. simpl in Hres. congruence.
    + apply lookup_lt_is_Some. rewrite H5. simpl. now apply lookup_lt_Some in Hn.
  - (* game start *) simpl. unfold gameStart, onGameStart.
    destruct (EJS_onGameStart (win w)) as [m|]; [|now apply (promises_unchanged w)]. simpl.
    destruct (EJS_emulator_canvas (win w)); simpl.
    + destruct (300 <? _)%Z.
      * apply (settle_resolving _ m); [reflexivity | exact Hn].
      * now apply (promises_unchanged w).
    + apply (settle_resolving _ m); [reflexivity | exact Hn].
Qed.

Lemma promises_length_step w e :
  is_load e = false -> length (promises (win (step w e))) = length (promises (win w)).
Proof.
  intros He.
  destruct e as [| t0 t1 | | now | | m | | h cw ch |]; try discriminate;
    try (now rewrite sched_step_promises);
    try reflexivity.
  - simpl. apply settle_length.
  - simpl. unfold resizeCanvas. destruct (decide _); [reflexivity|].
    destruct (canvases (win w) !! h); [|reflexivity]. unfold notify.
    set (w1 := with_win _ w).
    destruct (notify_fold_ready h (observers (win w1)) w1) as (_ & _ & _ & _ & H5).
    exact H5.
  - simpl. unfold gameStart, onGameStart.
    destruct (EJS_onGameStart (win w)) as [m|]; [|reflexivity]. simpl.
    destruct (EJS_emulator_canvas (win w)); simpl; [|apply settle_length].
    destruct (300 <? _)%Z; [apply settle_length | reflexivity].
Qed.

(** X12: a promise returned by [loadROM] settles at most once: a settled
    promise keeps its state under every later event; and, as long as no
    new load begins, a promise that goes from pending to resolved leaves
    the bridge ready. *)
Theorem promise_settles_once (w : World) (evs : list Event) (n : nat) (p : Promise) :
  promises (win w) !! n = Some p ->
  (p <> Pending -> promises (win (run evs w)) !! n = Some p) /\
  (forallb (fun e => negb (is_load e)) evs = true ->
   p = Pending -> promises (win (run evs w)) !! n = Some Resolved ->
   isReady (bridge (run evs w)) = true).
Proof.
  revert w p. induction evs as [|e evs IH]; intros w p Hn.
  - simpl. split; [intros _; exact Hn | intros _ -> H; congruence].
  - change (run (e :: evs) w) with (run evs (step w e)).
    destruct (promise_step w e n p Hn) as (Hkeep & Hres & [q Hq]).
    split.
    + intros Hp. apply (IH (step w e) p); [now apply Hkeep | exact Hp].
    + intros Hall -> Hfin. simpl in Hall. apply andb_true_iff in Hall as [He Hall].
      destruct (IH (step w e) q Hq) as (Hkeep' & Hres').
      destruct q.
      * now apply Hres'.
      * assert (Hr : isReady (bridge (step w e)) = true) by now apply Hres.
        clear - Hr Hall. revert Hr. generalize (step w e) as w'. 
        induction evs as [|e' evs IH']; intros w' Hr; [exact Hr|].
        simpl in Hall. apply andb_true_iff in Hall as [He' Hall]. apply negb_true_iff in He'.
        change (run (e' :: evs) w') with (run evs (step w' e')).
        apply IH'; [exact Hall | now apply ready_step].
      * rewrite Hkeep' in Hfin by discriminate. discriminate.
Qed.

Lemma promise_settles_once_witness :
  promises (win (run [EvLoadROM; EvEmuCanvas; EvResize 1 384 224; EvGameStart] boot)) !! 0
    = Some Resolved /\
  promises (win (run [EvScriptError 0; EvGameStart; EvLoadROM]
     (run [EvLoadROM; EvEmuCanvas; EvResize 1 384 224; EvGameStart] boot))) !! 0
    = Some Resolved.
Proof.
  assert (Hp : promises (win (run [EvLoadROM; EvEmuCanvas; EvResize 1 384 224; EvGameStart] boot))
                 !! 0 = Some Resolved) by reflexivity.
  split; [exact Hp|].
  assert (Hne : Resolved <> Pending) by discriminate.
  exact (proj1 (promise_settles_once _ [EvScriptError 0; EvGameStart; EvLoadROM] 0 Resolved Hp) Hne).
Defined.

(** ** The texture's image *)

Lemma outputCanvas_exists w : bridge_inv w -> is_Some (canvases (win w) !! outputCanvas (bridge w)).
Proof.
  intros (I1 & _ & _ & _ & I5). unfold outputCanvas.
  destruct (ejsCanvas (bridge w)) as [h|] eqn:He; [now apply I5 | rewrite I1; eauto].
Qed.

Lemma tick_image_exists now w : bridge_inv w -> image_exists w -> image_exists (tick now w).
Proof.
  intros Hb Hi h. unfold bound_image. rewrite tick_screenMesh.
  assert (Hc : canvases (win (tick now w)) = canvases (win w)).
  { pose proof (tick_bview now w) as Hv. unfold bview in Hv. congruence. }
  rewrite Hc. specialize (Hi h). unfold bound_image in Hi.
  destruct (isReady (bridge w)); [|exact Hi].
  destruct (screenMesh (scene w)) as [tex|]; [|exact Hi]. simpl in *.
  destruct (decide _) as [Heq|Hne]; simpl; [exact Hi|].
  intros [= <-]. now apply outputCanvas_exists.
Qed.

Lemma sched_step_canvases w e :
  is_sched e = true -> canvases (win (step w e)) = canvases (win w).
Proof. intros He. pose proof (sched_step_bview w e He) as Hv. unfold bview in Hv. congruence. Qed.

Lemma canvases_mono w e h :
  is_Some (canvases (win w) !! h) -> is_Some (canvases (win (step w e)) !! h).
Proof.
  intros Hs.
  destruct e as [| t0 t1 | | now | | n | | h' cw ch |];
    try (rewrite sched_step_canvases by reflexivity; exact Hs);
    try exact Hs.
  - simpl. unfold emuCreateCanvas, createCanvas. simpl.
    destruct (decide (nextHandle (win w) = h)) as [<-|Hne].
    + rewrite lookup_insert_eq. eauto.
    + now rewrite lookup_insert_ne.
  - simpl. unfold resizeCanvas. destruct (decide _); [exact Hs|].
    destruct (canvases (win w) !! h') eqn:Hl; [|exact Hs]. unfold notify.
    set (w1 := with_win _ w).
    destruct (notify_fold_spec h' (observers (win w1)) w1) as (Hd & _).
    set (w2 := fold_left _ _ w1) in *.
    assert (Hc : canvases (win w2) = canvases (win w1)) by (unfold dview in Hd; congruence).
    rewrite Hc. simpl.
    destruct (decide (h' = h)) as [<-|Hne].
    + rewrite lookup_insert_eq. eauto.
    + now rewrite lookup_insert_ne.
  - simpl. unfold gameStart, onGameStart.
    destruct (EJS_onGameStart (win w)); [|exact Hs]. simpl.
    destruct (EJS_emulator_canvas (win w)); simpl; [|exact Hs].
    destruct (300 <? _)%Z; exact Hs.
Qed.

Lemma ticks_image_exists now (cbs : list nat) w :
  bridge_inv w -> image_exists w ->
  image_exists (fold_left (fun w _ => tick now w) cbs w).
Proof.
  revert w. induction cbs as [|c cbs IH]; intros w Hb Hi; simpl; [exact Hi|].
  apply IH; [|now apply tick_image_exists].
  apply (bridge_inv_bview w); [apply tick_bview | exact Hb].
Qed.

(** X13: the image of the screen texture is always a canvas that exists:
    the scene never holds a reference to a canvas the page has not
    created. *)
Theorem texture_reads_existing_canvas (w : World) (h : nat) :
  Reachable w -> bound_image w = Some h ->
  is_Some (canvases (win w) !! h).
Proof.
  intros Hw Hb. revert h Hb. change (image_exists w). revert w Hw.
  apply (reachable_ind image_exists); [intros h [=]|].
  intros w e Hw IH. pose proof (reachable_bridge_inv w Hw) as Hbi.
  destruct e as [| t0 t1 | | now | | n | | h' cw ch |].
  + intros h [= <-]. exact (outputCanvas_exists w Hbi).
  + simpl. unfold start. destruct (rafId (scene w)); [exact IH|].
    apply tick_image_exists; [exact Hbi | exact IH].
  + simpl. unfold stop. destruct (rafId (scene w)); exact IH.
  + simpl. unfold frame. apply ticks_image_exists; [exact Hbi | exact IH].
  + exact IH.
  + exact IH.
  + intros h Hh. apply (canvases_mono w EvEmuCanvas). now apply IH.
  + intros h Hh. apply (canvases_mono w (EvResize h' cw ch)). apply IH.
    unfold bound_image in *. simpl in Hh.
    now destruct (resizeCanvas_scene h' cw ch w) as [<- _].
  + intros h Hh. apply (canvases_mono w EvGameStart). apply IH.
    unfold bound_image in *. simpl in Hh.
    now destruct (gameStart_scene w) as [<- _].
Qed.

Lemma texture_reads_existing_canvas_witness :
  Reachable (run [EvInit] boot) /\ bound_image (run [EvInit] boot) = Some 0 /\
  is_Some (canvases (win (run [EvInit] boot)) !! 0).
Proof.
  assert (Hw : Reachable (run [EvInit] boot)) by (eexists; reflexivity).
  assert (Hb : bound_image (run [EvInit] boot) = Some 0) by reflexivity.
  split; [exact Hw | split; [exact Hb|]].
  exact (texture_reads_existing_canvas (run [EvInit] boot) 0 Hw Hb).
Defined.

(* ===================================================================== *)
(** * Properties of the context patch and of the game name *)
(* ===================================================================== *)

Module ContextPatchFacts.
Import ContextPatch.
Local Open Scope string_scope.

(** X14: the [getContext] wrapper installed by [EJS_ready] passes the
    context type through unchanged; for the three WebGL type names it
    forces [preserveDrawingBuffer] to [true] and leaves every other
    attribute as the caller gave it; for any other type the attributes are
    untouched; and wrapping twice is the same as wrapping once. *)
Theorem getContext_preserves_buffer (type : string) (attrs : option (gmap string JSValue)) :
  fst (getContext_args type attrs) = type /\
  (is_webgl type = true ->
     snd (getContext_args type attrs) !! "preserveDrawingBuffer" = Some (JSBool true) /\
     forall k, k <> "preserveDrawingBuffer" ->
       snd (getContext_args type attrs) !! k = default ∅ attrs !! k) /\
  (is_webgl type = false -> snd (getContext_args type attrs) = default ∅ attrs) /\
  getContext_args (fst (getContext_args type attrs)) (Some (snd (getContext_args type attrs)))
    = getContext_args type attrs.
Proof.
  unfold getContext_args. destruct (is_webgl type) eqn:Hw; simpl; rewrite ?Hw; simpl.
  - repeat split; try discriminate.
    + apply lookup_insert_eq.
    + intros k Hk. now apply lookup_insert_ne.
    + f_equal. apply insert_insert_eq.
  - repeat split; discriminate.
Qed.

Lemma getContext_preserves_buffer_witness :
  is_webgl "webgl2" = true /\
  snd (getContext_args "webgl2" (Some {["preserveDrawingBuffer" := JSBool false]}))
    !! "preserveDrawingBuffer" = Some (JSBool true).
Proof.
  assert (Hw : is_webgl "webgl2" = true) by reflexivity.
  split; [exact Hw|].
  exact (proj1 (proj1 (proj2 (getContext_preserves_buffer "webgl2"
           (Some {["preserveDrawingBuffer" := JSBool false]}))) Hw)).
Defined.

End ContextPatchFacts.

Module GameNameFacts.
Import GameName.

Lemma has_dot_app s t : has_dot (s ++ t) = has_dot s || has_dot t.
Proof. induction s as [|c s IH]; simpl; [reflexivity|]. now rewrite IH, orb_assoc. Qed.

Lemma has_dot_false s : has_dot s = false <-> DOT ∉ s.
Proof.
  induction s as [|c s IH]; simpl.
  - split; [intros _ H; inversion H | reflexivity].
  - rewrite orb_false_iff, IH, not_elem_of_cons, Nat.eqb_neq. split; intros [? ?]; split; auto.
Qed.

Lemma ext_here_ext ext : ext <> [] -> has_dot ext = false -> ext_here (DOT :: ext) = true.
Proof.
  intros Hne Hd. unfold ext_here. rewrite Hd, Nat.eqb_refl.
  now rewrite bool_decide_eq_false_2.
Qed.

Lemma ext_here_dotted c s : has_dot s = true -> ext_here (c :: s) = false.
Proof. intros Hd. unfold ext_here. rewrite Hd. apply andb_false_r. Qed.

Lemma ext_here_undotted c s : (c =? DOT) = false -> ext_here (c :: s) = false.
Proof. intros Hc. unfold ext_here. now rewrite Hc. Qed.

Lemma has_dot_snoc s : has_dot (s ++ [DOT]) = true.
Proof. rewrite has_dot_app. unfold has_dot at 2. rewrite Nat.eqb_refl. apply orb_true_r. Qed.

Lemma gameName_step c s : ext_here (c :: s) = false -> gameName (c :: s) = c :: gameName s.
Proof. intros He. unfold gameName; fold gameName. now rewrite He. Qed.

Lemma gameName_no_dot s : has_dot s = false -> gameName s = s.
Proof.
  induction s as [|c s IH]; intros Hd; [reflexivity|].
  simpl in Hd. apply orb_false_iff in Hd as [Hc Hs].
  rewrite gameName_step by now apply ext_here_undotted.
  now rewrite IH.
Qed.

(** X15: [EJS_gameName] is the file name without its last extension: a
    name [base.ext] with a non-empty, dot-free [ext] becomes [base]
    (whatever dots [base] holds); a name without a dot, and a name ending
    in a dot, are kept whole; and the result is always a prefix of the
    file name. *)
Theorem gameName_strips_last_extension (base ext s : list nat) :
  (ext <> [] -> DOT ∉ ext -> gameName (base ++ DOT :: ext) = base) /\
  (DOT ∉ s -> gameName s = s) /\
  gameName (s ++ [DOT]) = s ++ [DOT] /\
  (exists t, s = gameName s ++ t).
Proof.
  split; [|split; [|split]].
  - intros Hne Hd. apply has_dot_false in Hd.
    induction base as [|c base IH].
    + simpl app. unfold gameName. now rewrite ext_here_ext.
    + change ((c :: base) ++ DOT :: ext) with (c :: (base ++ DOT :: ext)).
      rewrite gameName_step; [now rewrite IH|].
      apply ext_here_dotted. rewrite has_dot_app.
      unfold has_dot at 2. rewrite Nat.eqb_refl. apply orb_true_r.
  - intros Hd. apply gameName_no_dot. now apply has_dot_false.
  - induction s as [|c s IH].
    + reflexivity.
    + change ((c :: s) ++ [DOT]) with (c :: (s ++ [DOT])).
      rewrite gameName_step; [now rewrite IH|].
      apply ext_here_dotted, has_dot_snoc.
  - induction s as [|c s [t IH]]; [now exists []|].
    unfold gameName; fold gameName. destruct (ext_here (c :: s)).
    + now exists (c :: s).
    + exists t. simpl. now rewrite <- IH.
Qed.

(** [mvsc.tar.zip] becomes [mvsc.tar]. *)
Lemma gameName_strips_last_extension_witness :
  [122; 105; 112] <> [] /\ (DOT ∉ [122; 105; 112]) /\
  gameName ([109; 118; 115; 99; 46; 116; 97; 114] ++ DOT :: [122; 105; 112])
    = [109; 118; 115; 99; 46; 116; 97; 114].
Proof.
  assert (Hne : [122; 105; 112] <> ([] : list nat)) by discriminate.
  assert (Hd : DOT ∉ [122; 105; 112]) by (apply has_dot_false; reflexivity).
  split; [exact Hne | split; [exact Hd|]].
  exact (proj1 (gameName_strips_last_extension
                  [109; 118; 115; 99; 46; 116; 97; 114] [122; 105; 112] []) Hne Hd).
Defined.

End GameNameFacts.

(* ===================================================================== *)
(** * Properties of the input router *)
(* ===================================================================== *)

Module InputRouterFacts.
Import InputRouter.
Local Open Scope string_scope.

Lemma handle_held r e :
  heldKeys r ⊆ CAPTURED_KEYS -> heldKeys (handle r e) ⊆ CAPTURED_KEYS.
Proof.
  intros Hs. destruct e as [ready [k | k |]]; unfold handle; simpl.
  - unfold onKeyDown. destruct (bool_decide (k ∈ heldKeys r)); [exact Hs|].
    destruct (bool_decide (k ∈ CAPTURED_KEYS)) eqn:Hc; [|exact Hs].
    apply bool_decide_eq_true in Hc. simpl.
    apply union_subseteq. split; [exact Hs | now apply singleton_subseteq_l].
  - apply subseteq_difference_l. exact Hs.
  - exact Hs.
Qed.

(** X16: whatever keys are pressed and released, and whatever the bridge's
    readiness at each event, the set of held keys only ever contains keys
    of [KEY_MAP]. *)
Theorem held_keys_are_captured (evs : list (bool * KeyEvent)) :
  heldKeys (fold_left handle evs create) ⊆ CAPTURED_KEYS.
Proof.
  assert (H : forall r, heldKeys r ⊆ CAPTURED_KEYS ->
            heldKeys (fold_left handle evs r) ⊆ CAPTURED_KEYS).
  { induction evs as [|e evs IH]; intros r Hr; simpl; [exact Hr|].
    apply IH. now apply handle_held. }
  apply H. simpl. apply empty_subseteq.
Qed.

(** X17: [#onKeyDown] does nothing for a key that is already held (key
    repeat) and nothing for a key outside [KEY_MAP]; for a mapped key not
    yet held it prevents the default action and holds the key, after
    which a repeated keydown of it is ignored. *)
Theorem key_repeat_ignored (key : string) (ready : bool) (r : t) :
  (key ∈ heldKeys r ->
     onKeyDown key ready r = {| router := r; prevented := false; debug := None |}) /\
  (key ∉ CAPTURED_KEYS -> key ∉ heldKeys r ->
     onKeyDown key ready r = {| router := r; prevented := false; debug := None |}) /\
  (key ∈ CAPTURED_KEYS -> key ∉ heldKeys r ->
     prevented (onKeyDown key ready r) = true /\
     key ∈ heldKeys (router (onKeyDown key ready r)) /\
     onKeyDown key ready (router (onKeyDown key ready r)) =
       {| router := router (onKeyDown key ready r); prevented := false; debug := None |}).
Proof.
  unfold onKeyDown. split; [|split].
  - intros Hh. now rewrite bool_decide_eq_true_2.
  - intros Hc Hh. now rewrite bool_decide_eq_false_2, bool_decide_eq_false_2.
  - intros Hc Hh. rewrite (bool_decide_eq_false_2 _ Hh), (bool_decide_eq_true_2 _ Hc). simpl.
    assert (Hin : key ∈ heldKeys r ∪ {[key]})
      by (apply elem_of_union; right; now apply elem_of_singleton).
    split; [reflexivity | split; [exact Hin|]].
    now rewrite (bool_decide_eq_true_2 _ Hin).
Qed.

Lemma key_repeat_ignored_witness :
  "z" ∈ CAPTURED_KEYS /\ ("z" ∉ heldKeys create) /\
  prevented (onKeyDown "z" true create) = true.
Proof.
  assert (Hc : "z" ∈ CAPTURED_KEYS) by (apply elem_of_dom; eexists; reflexivity).
  assert (Hh : "z" ∉ heldKeys create) by apply not_elem_of_empty.
  split; [exact Hc | split; [exact Hh|]].
  exact (proj1 (proj2 (proj2 (key_repeat_ignored "z" true create)) Hc Hh)).
Defined.

(** X18: pressing a mapped key and releasing it leaves the held set as it
    was; releasing a different key in between does not release it, so the
    key's next keydown is still treated as a repeat. *)
Theorem key_release (key other : string) (ready : bool) (r : t) :
  key ∈ CAPTURED_KEYS -> key ∉ heldKeys r ->
  heldKeys (router (onKeyUp key ready (router (onKeyDown key ready r)))) = heldKeys r /\
  (other <> key ->
     let r' := router (onKeyUp other ready (router (onKeyDown key ready r))) in
     key ∈ heldKeys r' /\
     onKeyDown key ready r' = {| router := r'; prevented := false; debug := None |}).
Proof.
  intros Hc Hh. unfold onKeyDown.
  rewrite (bool_decide_eq_false_2 _ Hh), (bool_decide_eq_true_2 _ Hc). simpl.
  split.
  - apply set_eq. intros k.
    rewrite elem_of_difference, elem_of_union, elem_of_singleton. split.
    + intros [[H | H] Hn]; [exact H | contradiction].
    + intros H. split; [now left | intros ->; contradiction].
  - intros Hne.
    assert (Hin : key ∈ (heldKeys r ∪ {[key]}) ∖ {[other]}).
    { apply elem_of_difference. split.
      - apply elem_of_union. right. now apply elem_of_singleton.
      - rewrite elem_of_singleton. congruence. }
    split; [exact Hin|].
    now rewrite (bool_decide_eq_true_2 _ Hin).
Qed.

Lemma key_release_witness :
  "Enter" ∈ CAPTURED_KEYS /\ ("Enter" ∉ heldKeys create) /\
  heldKeys (router (onKeyUp "Enter" true (router (onKeyDown "Enter" true create))))
    = heldKeys create.
Proof.
  assert (Hc : "Enter" ∈ CAPTURED_KEYS) by (apply elem_of_dom; eexists; reflexivity).
  assert (Hh : "Enter" ∉ heldKeys create) by apply not_elem_of_empty.
  split; [exact Hc | split; [exact Hh|]].
  exact (proj1 (key_release "Enter" "q" true create Hc Hh)).
Defined.

(** X19: a keydown writes to the console only when the bridge is ready and
    the key was not held, and what it writes is the button [KEY_MAP]
    gives the key, never [undefined]; a keyup of a key that [KEY_MAP]
    lacks and [Object.prototype] does not name writes nothing. *)
Theorem keydown_logs_mapped_button (key : string) (ready : bool) (r : t) (l : Looked) :
  (debug (onKeyDown key ready r) = Some l ->
     ready = true /\ (key ∉ heldKeys r) /\ exists b, l = Own b /\ KEY_MAP !! key = Some b) /\
  (debug (onKeyUp key ready r) = Some l ->
     ready = true /\ l = KEY_MAP_get key /\ l <> Undefined).
Proof.
  split.
  - unfold onKeyDown. destruct (bool_decide (key ∈ heldKeys r)) eqn:Hh; [discriminate|].
    apply bool_decide_eq_false in Hh.
    destruct (bool_decide (key ∈ CAPTURED_KEYS)) eqn:Hc; [|discriminate].
    apply bool_decide_eq_true in Hc. simpl.
    destruct ready; [|discriminate]. intros [= <-].
    split; [reflexivity | split; [exact Hh|]].
    unfold CAPTURED_KEYS in Hc. apply elem_of_dom in Hc as [b Hb]. exists b.
    unfold KEY_MAP_get. now rewrite Hb.
  - unfold onKeyUp. cbn [debug]. destruct (KEY_MAP_get key) eqn:Hk; [| |discriminate];
      (destruct ready; [|discriminate]); intros [= <-]; repeat split; discriminate.
Qed.

Lemma keydown_logs_mapped_button_witness :
  debug (onKeyDown "Shift" true create) = Some (Own Coin) /\
  KEY_MAP !! "Shift" = Some Coin.
Proof.
  assert (Hd : debug (onKeyDown "Shift" true create) = Some (Own Coin)) by reflexivity.
  split; [exact Hd|].
  destruct (proj1 (keydown_logs_mapped_button "Shift" true create (Own Coin)) Hd)
    as (_ & _ & b & Hb & Hm).
  injection Hb as <-. exact Hm.
Defined.

End InputRouterFacts.

(* ===================================================================== *)
(** * Properties of the page *)
(* ===================================================================== *)

Lemma env_not_load e : is_env e = true -> is_load e = false.
Proof. destruct e; simpl; congruence. Qed.

Lemma has_texture_tick now w : has_texture w = true -> has_texture (tick now w) = true.
Proof.
  unfold has_texture. rewrite tick_screenMesh.
  destruct (screenMesh (scene w)); [|discriminate]. now destruct (isReady (bridge w)).
Qed.

Lemma env_step_scene w e :
  Reachable w -> is_env e = true ->
  has_texture w = true ->
  has_texture (step w e) = true /\
  (rafId (scene w) = None -> rafId (scene (step w e)) = None) /\
  (rafId (scene w) <> None -> rafId (scene (step w e)) <> None).
Proof.
  intros Hw He Ht. destruct (reachable_sched_inv w Hw) as (Hq & _).
  destruct e as [| t0 t1 | | now | | n | | h cw ch |]; try discriminate.
  - simpl. destruct (rafId (scene w)) as [id|] eqn:Hid.
    + rewrite (frame_when_running now w id Hq), tick_rafId.
      split; [now apply has_texture_tick | split; [discriminate | discriminate]].
    + rewrite (frame_when_stopped now w Hq). rewrite Hid. auto.
  - auto.
  - auto.
  - unfold has_texture. simpl. destruct (resizeCanvas_scene h cw ch w) as [-> _]. auto.
  - unfold has_texture. simpl. destruct (gameStart_scene w) as [-> _]. auto.
Qed.

Lemma app_inv_boot : app_inv app_boot.
Proof.
  unfold app_inv. simpl. split; [exists [EvInit]; reflexivity|].
  repeat split; auto; try discriminate; try lia.
Qed.

Lemma app_inv_step a ev : app_inv a -> app_inv (app_step a ev).
Proof.
  intros (Hw & Ht & Hl & Hp & Ha & Hah & Hno & Hyes).
  destruct ev as [has | | e t0 t1]; simpl.
  - unfold app_inv. simpl. auto 10.
  - destruct (loadBtnEnabled a && panelShown a) eqn:Hc;
      [|unfold app_inv; auto 10].
    apply andb_true_iff in Hc as [_ Hps]. destruct (Hp Hps) as [Hnil Hnone].
    unfold onLoadClick. destruct (fileSelected a); [|unfold app_inv; auto 10].
    assert (Hoh : overlayHidden a = false).
    { destruct (overlayHidden a) eqn:E; [|reflexivity].
      destruct (Hyes eq_refl) as (_ & _ & H). congruence. }
    unfold app_inv. simpl. rewrite Hnil. simpl.
    split; [exact (reachable_step (world a) EvLoadROM Hw)|].
    split; [exact Ht|]. split; [lia|]. split; [discriminate|].
    split; [intros n [= <-]; reflexivity|].
    split; [intros _; exact Hoh|].
    split; [intros _; now apply Hno|].
    intros H. congruence.
  - destruct (is_env e) eqn:He; [|unfold app_inv; auto 10].
    set (w1 := step (world a) e).
    assert (Hw1 : Reachable w1) by now apply reachable_step.
    destruct (env_step_scene (world a) e Hw He Ht) as (Ht1 & Hnone1 & Hsome1). fold w1 in Ht1, Hnone1, Hsome1.
    assert (Hl1 : length (promises (win w1)) <= 1).
    { unfold w1. rewrite promises_length_step by now apply env_not_load. exact Hl. }
    unfold afterAwait. simpl.
    destruct (awaiting a) as [n|] eqn:Haw.
    + assert (Hoh : overlayHidden a = false) by (apply Hah; discriminate).
      assert (Hps : panelShown a = false).
      { destruct (panelShown a) eqn:E; [|reflexivity]. destruct (Hp eq_refl); discriminate. }
      specialize (Ha n eq_refl).
      destruct (promise_step (world a) e n Pending Ha) as (_ & Hres & [q Hq]). fold w1 in Hres, Hq.
      rewrite Hq. destruct q.
      * unfold app_inv. simpl. rewrite Hoh, Hps.
        split; [exact Hw1|]. split; [exact Ht1|]. split; [exact Hl1|].
        split; [discriminate|]. split; [intros n' [= <-]; exact Hq|].
        split; [reflexivity|]. split; [intros _; now apply Hnone1, Hno | discriminate].
      * assert (Hr : isReady (bridge w1) = true) by now apply Hres.
        assert (Hid1 : rafId (scene w1) = None) by now apply Hnone1, Hno.
        unfold app_inv. simpl. rewrite Hps.
        split; [exact (reachable_step w1 (EvStart t0 t1) Hw1)|].
        unfold start. rewrite Hid1.
        split; [apply has_texture_tick; exact Ht1|].
        assert (Hpr : promises (win (tick t1 (with_scene (fun s => set_clock (THREE.Clock_start t0 (clock s)) s) w1))) = promises (win w1)).
        { pose proof (tick_bview t1 (with_scene (fun s => set_clock (THREE.Clock_start t0 (clock s)) s) w1)) as Hv.
          unfold bview in Hv. injection Hv as _ _ _ _ _ _ _ Hv. exact Hv. }
        rewrite Hpr. split; [exact Hl1|]. split; [discriminate|]. split; [discriminate|].
        split; [intros H; now contradiction H|]. split; [discriminate|].
        intros _. rewrite tick_rafId, tick_bridge. split; [discriminate|]. split; [exact Hr | reflexivity].
      * unfold app_inv. simpl. rewrite Hoh, Hps.
        split; [exact Hw1|]. split; [exact Ht1|]. split; [exact Hl1|].
        split; [discriminate|]. split; [discriminate|].
        split; [reflexivity|]. split; [intros _; now apply Hnone1, Hno | discriminate].
    + unfold app_inv. simpl.
      split; [exact Hw1|]. split; [exact Ht1|]. split; [exact Hl1|].
      split.
      { intros Hps. destruct (Hp Hps) as [Hnil _]. split; [|reflexivity].
        apply nil_length_inv. unfold w1.
        rewrite promises_length_step by now apply env_not_load. now rewrite Hnil. }
      split; [discriminate|]. split; [intros H; now contradiction H|].
      split; [intros Hoh; now apply Hnone1, Hno|].
      intros Hoh. destruct (Hyes Hoh) as (Hid & Hr & Hps).
      split; [now apply Hsome1|]. split; [|exact Hps].
      apply ready_step; [now apply env_not_load | exact Hr].
Qed.

Lemma app_inv_run evs a : app_inv a -> app_inv (app_run evs a).
Proof.
  revert a. induction evs as [|ev evs IH]; intros a Ha; [exact Ha|].
  apply IH. now apply app_inv_step.
Qed.

(** X20: the page as [main] wires it. Whatever the user and the browser
    do, [loadROM] is called at most once; the render loop runs exactly
    when the overlay has been hidden; and whenever the loop runs the
    bridge is ready, so that every frame marks the screen texture for
    upload. *)
Theorem app_ticks_stream (evs : list AppEvent) (now : Q) :
  let a := app_run evs app_boot in
  length (promises (win (world a))) <= 1 /\
  (rafId (scene (world a)) <> None <-> overlayHidden a = true) /\
  (rafId (scene (world a)) <> None ->
     isReady (bridge (world a)) = true /\
     marks_dirty (world a) (frame now (world a)) = true).
Proof.
  intros a. destruct (app_inv_run evs app_boot app_inv_boot) as
    (Hw & Ht & Hl & _ & _ & _ & Hno & Hyes). fold a in Hw, Ht, Hl, Hno, Hyes.
  assert (Hiff : rafId (scene (world a)) <> None <-> overlayHidden a = true).
  { destruct (overlayHidden a) eqn:E.
    - split; [reflexivity | intros _; now apply Hyes].
    - split; [intros H; exfalso; apply H; now apply Hno | discriminate]. }
  split; [exact Hl | split; [exact Hiff|]].
  intros Hid. apply Hiff in Hid. destruct (Hyes Hid) as (Hid' & Hr & _).
  split; [exact Hr|].
  destruct (reachable_sched_inv (world a) Hw) as (Hq & _).
  destruct (rafId (scene (world a))) as [id|]; [|contradiction].
  rewrite (frame_when_running now (world a) id Hq).
  unfold marks_dirty, texture_version. rewrite tick_screenMesh.
  change (bridge (with_win (set_rafQueue []) (world a))) with (bridge (world a)).
  change (scene (with_win (set_rafQueue []) (world a))) with (scene (world a)).
  rewrite Hr. unfold has_texture in Ht.
  destruct (screenMesh (scene (world a))) as [tex|]; [|discriminate]. simpl.
  apply Nat.ltb_lt. destruct (decide _); simpl; lia.
Qed.

Lemma app_ticks_stream_witness :
  rafId (scene (world (app_run
    [FileChange true; LoadClick; Env EvEmuCanvas 0 0; Env (EvResize 1 384 224) 0 0;
     Env EvGameStart 10 10; Env (EvFrame 26) 0 0] app_boot))) <> None /\
  isReady (bridge (world (app_run
    [FileChange true; LoadClick; Env EvEmuCanvas 0 0; Env (EvResize 1 384 224) 0 0;
     Env EvGameStart 10 10; Env (EvFrame 26) 0 0] app_boot))) = true.
Proof.
  assert (Hid : rafId (scene (world (app_run
    [FileChange true; LoadClick; Env EvEmuCanvas 0 0; Env (EvResize 1 384 224) 0 0;
     Env EvGameStart 10 10; Env (EvFrame 26) 0 0] app_boot))) <> None)
    by (vm_compute; discriminate).
  split; [exact Hid|].
  exact (proj1 (proj2 (proj2 (app_ticks_stream
    [FileChange true; LoadClick; Env EvEmuCanvas 0 0; Env (EvResize 1 384 224) 0 0;
     Env EvGameStart 10 10; Env (EvFrame 26) 0 0] 42)) Hid)).
Defined.
